(** * PMP estimation core of [app.py]: a shallow embedding and its properties

    The Python module computes a Probable Maximum Precipitation estimate from
    yearly precipitation maxima.  This development embeds its statistical core

      - [calculate_mean], [calculate_std], [calculate_trend]
      - [process_yearly_data]
      - [calculate_pmp_with_eva]
      - [calculate_hydrological_parameters]

    and proves the properties the specification states about them.

    Modelling conventions.

      - Python numbers are exact real numbers ([R]); Python [int]s that are
        only counted or indexed with ([len], [range], [year]) are [Z].  The
        rounding error of binary64 arithmetic is not modelled there; the
        module [B64] runs the numeric functions on binary64 numbers, and is
        used to evaluate them where rounding or overflow changes the
        outcome.
      - Python exceptions are values of [exn]; a computation that may raise
        returns [res A].
      - A Python [list] that is passed by reference and mutated lives in a
        store ([heap]); code that allocates, copies or mutates lists runs in
        the monad [M], which threads the store and keeps it when an exception
        is raised (Python does not roll back on [raise]).
      - A Python [dict] read with [.get] is a [gmap] keyed by strings; a dict
        built as a literal and returned is a record. *)

From Stdlib Require Import Reals Lra Lia ZArith.
From Stdlib Require PrimFloat FloatOps SpecFloat Uint63.
From stdpp Require Import base option list gmap strings sorting.

Set Warnings "-inexact-float".

Delimit Scope float_scope with float.
Number Notation PrimFloat.float PrimFloat.parser PrimFloat.printer : float_scope.

Local Open Scope R_scope.

(** ** Python runtime: exceptions and numeric built-ins *)

Module Py.

Inductive exn : Set :=
| ZeroDivisionError
| ValueError
| IndexError
| OverflowError  (* raised by [float ** 2]; the exact reals never overflow *)
| InvalidRef.  (* model only: a reference that is not in the store *)

Inductive res (A : Type) : Type :=
| Ok (a : A)
| Raise (e : exn).
Arguments Ok {A} a.
Arguments Raise {A} e.

Definition rbind {A B : Type} (m : res A) (k : A -> res B) : res B :=
  match m with
  | Ok a => k a
  | Raise e => Raise e
  end.

(** [a / b] on numbers. *)
Definition truediv (a b : R) : res R :=
  if Req_dec_T b 0 then Raise ZeroDivisionError else Ok (a / b).

(** [math.sqrt(x)]. *)
Definition math_sqrt (x : R) : res R :=
  if Rlt_dec x 0 then Raise ValueError else Ok (sqrt x).

(** [max(a, b)]: the first argument unless the second is greater. *)
Definition max2 (a b : R) : R := if Rlt_dec a b then b else a.

(** [min(a, b)]: the first argument unless the second is smaller. *)
Definition min2 (a b : R) : R := if Rlt_dec b a then b else a.

(** [max(iterable)] and [min(iterable)]: [ValueError] on an empty one. *)
Definition max (l : list R) : res R :=
  match l with
  | [] => Raise ValueError
  | x :: t => Ok (foldl max2 x t)
  end.

Definition min (l : list R) : res R :=
  match l with
  | [] => Raise ValueError
  | x :: t => Ok (foldl min2 x t)
  end.

(** [sum(iterable)]: left to right, starting from 0. *)
Definition sum (l : list R) : R := foldl Rplus 0 l.

(** [len(l)]. *)
Definition len {A : Type} (l : list A) : Z := Z.of_nat (length l).

(** [list(range(n))]. *)
Definition range (n : Z) : list Z := Z.of_nat <$> seq 0 (Z.to_nat n).

(** [l[i]], with Python's negative indices. *)
Definition getitem (l : list R) (i : Z) : res R :=
  let j := if (i <? 0)%Z then (len l + i)%Z else i in
  if (j <? 0)%Z then Raise IndexError
  else match l !! Z.to_nat j with
       | Some v => Ok v
       | None => Raise IndexError
       end.

(** The integer nearest to [y], ties to the even one. *)
Definition round_half_even (y : R) : Z :=
  let f := Zfloor y in
  let d := y - IZR f in
  if Rlt_dec d (1 / 2) then f
  else if Rlt_dec (1 / 2) d then (f + 1)%Z
  else if Z.even f then f else (f + 1)%Z.

(** [round(x, 2)]. *)
Definition round2 (x : R) : R := IZR (round_half_even (x * 100)) / 100.

(** [l.remove(x)] on the contents of a list: the first element equal to
    [x] is dropped; [None] when there is none (Python raises
    [ValueError]). *)
Fixpoint list_remove (x : R) (l : list R) : option (list R) :=
  match l with
  | [] => None
  | y :: t =>
      if Req_dec_T y x then Some t
      else match list_remove x t with
           | Some t' => Some (y :: t')
           | None => None
           end
  end.

(** [[f(i) for i in l]] where [f] may raise. *)
Fixpoint for_each {A B : Type} (f : A -> res B) (l : list A) : res (list B) :=
  match l with
  | [] => Ok []
  | a :: t => rbind (f a) (fun b => rbind (for_each f t) (fun bs => Ok (b :: bs)))
  end.

End Py.

Import Py.

#[global] Instance res_ret : MRet res := @Ok.
#[global] Instance res_bind : MBind res := fun A B k m => rbind m k.

(** ** Descriptive statistics *)

Definition calculate_mean (values : list R) : res R :=
  match values with
  | [] => Ok 0
  | _ => truediv (sum values) (IZR (len values))
  end.

Definition calculate_std (values : list R) : res R :=
  let n := len values in
  if (n <? 2)%Z then Ok 0
  else
    mean ← calculate_mean values;
    let squared := (fun v => (v - mean) ^ 2) <$> values in
    variance ← truediv (sum squared) (IZR (n - 1));
    math_sqrt variance.

(** The last line of [calculate_trend]: [num / den if den != 0 else 0]. *)
Definition trend_ratio (num den : R) : res R :=
  if Req_dec_T den 0 then Ok 0 else truediv num den.

(** The two sums of [calculate_trend] over [range(n)]. *)
Definition trend_num (x values : list R) (x_mean y_mean : R) (n : Z) : res R :=
  terms ← for_each (fun i =>
             xi ← getitem x i;
             vi ← getitem values i;
             Ok ((xi - x_mean) * (vi - y_mean))) (range n);
  Ok (sum terms).

Definition trend_den (x : list R) (x_mean : R) (n : Z) : res R :=
  terms ← for_each (fun i =>
             xi ← getitem x i;
             Ok ((xi - x_mean) ^ 2)) (range n);
  Ok (sum terms).

Definition calculate_trend (values : list R) : res R :=
  let n := len values in
  if (n <? 2)%Z then Ok 0
  else
    let x := IZR <$> range n in
    x_mean ← calculate_mean x;
    y_mean ← calculate_mean values;
    num ← trend_num x values x_mean y_mean n;
    den ← trend_den x x_mean n;
    trend_ratio num den.

(** ** Yearly aggregation *)

(** The dict returned by [process_yearly_data]; [None] fields are Python's
    [None]. *)
Module Summary.
Record t : Type := mk {
  year : Z;
  amdp : R;
  totalPrecip : R;
  avgTemp : option R;
  maxTemp : option R;
  minTemp : option R;
  avgWind : option R;
  dataPoints : Z
}.
End Summary.

(** [daily.get(key, [])]: a daily series, each day a number or [None]. *)
Definition dict_get (daily : gmap string (list (option R))) (key : string)
  : list (option R) :=
  default [] (daily !! key).

(** [[v for v in series if v is not None and v >= 0]] *)
Definition valid_nonneg (series : list (option R)) : list R :=
  omap (fun v => match v with
                 | Some r => if Rge_dec r 0 then Some r else None
                 | None => None
                 end) series.

(** [[v for v in series if v is not None]] *)
Definition valid_present (series : list (option R)) : list R :=
  omap (fun v => v) series.

(** [f(l) if l else None] *)
Definition if_nonempty (l : list R) (f : list R -> res R) : res (option R) :=
  match l with
  | [] => Ok None
  | _ => v ← f l; Ok (Some v)
  end.

(** The local [time] of the source is read and never used; it is left out. *)
Definition process_yearly_data (daily : gmap string (list (option R))) (year : Z)
  : res (option Summary.t) :=
  let precipitation_sum := dict_get daily "precipitation_sum" in
  let temp_max := dict_get daily "temperature_2m_max" in
  let temp_min := dict_get daily "temperature_2m_min" in
  let temp_mean := dict_get daily "temperature_2m_mean" in
  let wind_max := dict_get daily "windspeed_10m_max" in
  let valid_precip := valid_nonneg precipitation_sum in
  let valid_tmax := valid_present temp_max in
  let valid_tmin := valid_present temp_min in
  let valid_tmean := valid_present temp_mean in
  let valid_wind := valid_present wind_max in
  match valid_precip with
  | [] => Ok None
  | _ =>
      amdp ← max valid_precip;
      let total_precip := sum valid_precip in
      avg_temp ← if_nonempty valid_tmean calculate_mean;
      max_temp ← if_nonempty valid_tmax max;
      min_temp ← if_nonempty valid_tmin min;
      avg_wind ← if_nonempty valid_wind calculate_mean;
      Ok (Some (Summary.mk year amdp total_precip avg_temp max_temp min_temp
                           avg_wind (len valid_precip)))
  end.

(** ** The store of list objects *)

Abbreviation loc := positive (only parsing).
Abbreviation heap := (gmap positive (list R)) (only parsing).

Definition M (A : Type) : Type := heap -> res A * heap.

#[global] Instance M_ret : MRet M := fun A a h => (Ok a, h).
#[global] Instance M_bind : MBind M := fun A B k m h =>
  match m h with
  | (Ok a, h') => k a h'
  | (Raise e, h') => (Raise e, h')
  end.

(** A computation that does not touch the store. *)
Definition lift {A : Type} (r : res A) : M A := fun h => (r, h).

(** The contents of the list object at [l]. *)
Definition deref (l : loc) : M (list R) := fun h =>
  match h !! l with
  | Some xs => (Ok xs, h)
  | None => (Raise InvalidRef, h)
  end.

(** A new list object with contents [xs]. *)
Definition new_list (xs : list R) : M loc := fun h =>
  let l := fresh (dom h) in (Ok l, <[l := xs]> h).

(** [l.copy()] and [l[:]]: a new object with the same contents. *)
Definition list_copy (l : loc) : M loc := xs ← deref l; new_list xs.

(** [l.remove(x)]: mutates the object at [l]. *)
Definition remove (l : loc) (x : R) : M unit := fun h =>
  match h !! l with
  | None => (Raise InvalidRef, h)
  | Some xs =>
      match list_remove x xs with
      | Some xs' => (Ok (), <[l := xs']> h)
      | None => (Raise ValueError, h)
      end
  end.

#[global] Instance exn_eq_dec : EqDecision exn.
Proof. solve_decision. Defined.

(** [try: body / except e: handler]; the handler runs in the store the body
    left behind. *)
Definition try_except {A : Type} (e : exn) (body handler : M A) : M A := fun h =>
  match body h with
  | (Raise e', h') => if decide (e' = e) then handler h' else (Raise e', h')
  | r => r
  end.

(** A call [f(l)] of a function that only reads the list it is given. *)
Definition call {A : Type} (f : list R -> res A) (l : loc) : M A :=
  xs ← deref l; lift (f xs).

(** ** Extreme value estimator *)

Module CI.
Record t : Type := mk { lower : R; upper : R }.
End CI.

Module EVA.
Record t : Type := mk {
  pmp : R;
  frequencyFactor : R;
  confidenceInterval : CI.t
}.
End EVA.

Definition eps : R := 1 / 1000000.

(** [sqrt(n) if n > 0 else 1] *)
Definition se_divisor (n : Z) : res R :=
  if (0 <? n)%Z then math_sqrt (IZR n) else Ok 1.

(** [max(1.0, min(25.0, raw))] *)
Definition clamp (raw : R) : R := max2 1 (min2 25 raw).

(** The local variables of [calculate_pmp_with_eva] when it returns. *)
Module Locals.
Record t : Type := mk {
  mean : R;
  std : R;
  Xmax : R;
  rest : loc;
  Xmean : R;
  S : R;
  km_a : R;
  km_b : R;
  frequency_factor_raw : R;
  frequency_factor : R;
  pmp : R;
  n : Z;
  standard_error : R;
  confidence_interval : CI.t
}.
End Locals.

(** The body of [calculate_pmp_with_eva], line by line, up to the [return]. *)
Definition calculate_pmp_with_eva_body (amdp_values : loc) : M Locals.t :=
  mean ← call calculate_mean amdp_values;
  std ← call calculate_std amdp_values;
  Xmax ← call max amdp_values;
  rest ← list_copy amdp_values;
  rest ← try_except ValueError
           (_ ← remove rest Xmax; mret rest)
           (list_copy amdp_values);
  rest_now ← deref rest;
  '(Xmean, S_) ← match rest_now with
                | _ :: _ =>
                    Xmean ← call calculate_mean rest;
                    s ← call calculate_std rest;
                    mret (Xmean, max2 s eps)
                | [] => mret (mean, max2 std eps)
                end;
  km_a ← lift (truediv (Xmax - Xmean) S_);
  km_b ← lift (truediv (Xmax - mean) (max2 std eps));
  let frequency_factor_raw := max2 km_a km_b in
  let frequency_factor := clamp frequency_factor_raw in
  let frequency_factor := round2 frequency_factor in
  let pmp := mean + frequency_factor * std in
  n ← (xs ← deref amdp_values; mret (len xs));
  d ← lift (se_divisor n);
  standard_error ← lift (truediv std d);
  let confidence_interval :=
    CI.mk (pmp - 1.96 * standard_error) (pmp + 1.96 * standard_error) in
  mret (Locals.mk mean std Xmax rest Xmean S_ km_a km_b frequency_factor_raw
                  frequency_factor pmp n standard_error confidence_interval).

Definition calculate_pmp_with_eva (amdp_values : loc) : M EVA.t :=
  fr ← calculate_pmp_with_eva_body amdp_values;
  mret (EVA.mk (Locals.pmp fr) (Locals.frequency_factor fr)
               (Locals.confidence_interval fr)).

(** ** Hydrological parameters *)

Module Report.
Record t : Type := mk {
  meanAMDP : R;
  stdAMDP : R;
  meanAnnualPrecip : R;
  pmp : R;
  pmpUnadjusted : R;
  frequencyFactor : R;
  climateAdjustment : R;
  trend : R;
  variability : R;
  dataPoints : Z;
  yearsCovered : Z;
  confidenceInterval : CI.t
}.
End Report.

Definition calculate_hydrological_parameters
    (annual_data : list Summary.t) (climate_factor : R) : M Report.t :=
  amdp_values ← new_list (Summary.amdp <$> annual_data);
  let total_precip_vals := Summary.totalPrecip <$> annual_data in
  mean_amdp ← call calculate_mean amdp_values;
  std_amdp ← call calculate_std amdp_values;
  mean_annual_precip ← lift (calculate_mean total_precip_vals);
  eva_results ← calculate_pmp_with_eva amdp_values;
  let adjusted_pmp :=
    if Rgt_dec climate_factor 0
    then EVA.pmp eva_results * (1 + climate_factor)
    else EVA.pmp eva_results in
  trend ← call calculate_trend amdp_values;
  variability ← (if Req_dec_T mean_amdp 0 then mret 0
                 else q ← lift (truediv std_amdp mean_amdp); mret (q * 100));
  mret (Report.mk mean_amdp std_amdp mean_annual_precip adjusted_pmp
                  (EVA.pmp eva_results) (EVA.frequencyFactor eva_results)
                  climate_factor trend variability
                  (len annual_data) (len annual_data)
                  (EVA.confidenceInterval eva_results)).

(** ** The analysis endpoint *)

(** What [requests.get] gave back for one year: the status code, and what
    [resp.json()] yields, reduced to the entry of the decoded object under
    ['daily'] ([None] when the key is absent). *)
Module Http.
Record response : Type := mk {
  status_code : Z;
  json : res (option (gmap string (list (option R))))
}.
End Http.


(** [range(start, stop)] *)
Definition range_from (start stop : Z) : list Z :=
  (fun k => start + Z.of_nat k)%Z <$> seq 0 (Z.to_nat (stop - start)).

(** [sorted(annual_data, key=lambda x: x['year'])]: a stable sort, here by
    insertion; an element goes in front of the first one to its right whose
    year is not smaller. *)
Fixpoint insert_by_year (d : Summary.t) (l : list Summary.t) : list Summary.t :=
  match l with
  | [] => [d]
  | e :: l' =>
      if (Summary.year d <=? Summary.year e)%Z then d :: e :: l'
      else e :: insert_by_year d l'
  end.

Definition sorted_by_year (l : list Summary.t) : list Summary.t :=
  foldr insert_by_year [] l.

Section Analyze.

(** The remote archive: [requests.get(url, timeout=30)] for the URL of one
    year of the requested location; it may raise. *)
Variable requests_get : Z -> res Http.response.

(** One turn of the loop over the years: the summary to append, or [None]
    where the source reaches [continue] or skips the [append]. *)
Definition year_data (year : Z) : option Summary.t :=
  match requests_get year with
  | Raise _ => None
  | Ok resp =>
      if decide (Http.status_code resp = 200%Z) then
        match Http.json resp with
        | Raise _ => None
        | Ok None => None
        | Ok (Some daily) =>
            if decide (dom daily = ∅) then None
            else match process_yearly_data daily year with
                 | Ok (Some summary) => Some summary
                 | Ok None => None
                 | Raise _ => None
                 end
        end
      else None
  end.

(** The loop: [annual_data] grows by [append]. *)
Definition collect_years (years : list Z) : list Summary.t :=
  foldl (fun annual_data year =>
           match year_data year with
           | Some summary => annual_data ++ [summary]
           | None => annual_data
           end) [] years.


End Analyze.

(** ** The same code on binary64 numbers

    The development above computes with exact real numbers.  Python's
    [float] is an IEEE 754 binary64 number, on which the same operations
    round, overflow, and (for [**]) raise [OverflowError].  This module runs
    the numeric functions on binary64, so that they can be evaluated where
    the two arithmetics part.  Lists are taken by value; [sum] is the plain
    left-to-right sum; [float ** 2] is the correctly rounded square, which
    raises [OverflowError] when a finite operand has an infinite square;
    values are not NaN on input. *)

Module B64.

Abbreviation float := PrimFloat.float (only parsing).

(** [float(n)] for a Python [int] below 2^53 in magnitude. *)
Definition of_int (n : Z) : float :=
  if (n <? 0)%Z then PrimFloat.opp (PrimFloat.of_uint63 (Uint63.of_Z (- n)))
  else PrimFloat.of_uint63 (Uint63.of_Z n).

(** [a / b] *)
Definition truediv (a b : float) : res float :=
  if PrimFloat.eqb b 0 then Raise ZeroDivisionError else Ok (PrimFloat.div a b).

(** [math.sqrt(x)] *)
Definition math_sqrt (x : float) : res float :=
  if PrimFloat.ltb x 0 then Raise ValueError else Ok (PrimFloat.sqrt x).

(** [x ** 2] *)
Definition pow2 (x : float) : res float :=
  if PrimFloat.is_nan x then Ok x
  else if PrimFloat.is_infinity x then Ok (PrimFloat.abs x)
  else
    let y := PrimFloat.mul x x in
    if PrimFloat.is_infinity y then Raise OverflowError else Ok y.

(** [max(a, b)] and [min(a, b)] *)
Definition max2 (a b : float) : float := if PrimFloat.ltb a b then b else a.
Definition min2 (a b : float) : float := if PrimFloat.ltb b a then b else a.

(** [max(iterable)] *)
Definition max (l : list float) : res float :=
  match l with
  | [] => Raise ValueError
  | x :: t => Ok (foldl max2 x t)
  end.

(** [sum(iterable)] *)
Definition sum (l : list float) : float := foldl PrimFloat.add 0%float l.

(** [l[i]] *)
Definition getitem (l : list float) (i : Z) : res float :=
  let j := if (i <? 0)%Z then (len l + i)%Z else i in
  if (j <? 0)%Z then Raise IndexError
  else match l !! Z.to_nat j with
       | Some v => Ok v
       | None => Raise IndexError
       end.

(** [round(x, 2)]: the binary64 number nearest to the decimal with two
    fractional digits that is nearest to [x] (ties to the even digit); exact
    for [|x| < 2^53 / 100]. *)
Definition round2 (x : float) : float :=
  match FloatOps.Prim2SF x with
  | SpecFloat.S754_finite s m e =>
      if (0 <=? e)%Z then x
      else
        let n := (Z.pos m * 100)%Z in
        let d := (2 ^ (- e))%Z in
        let q := (n / d)%Z in
        let r := (n mod d)%Z in
        let k := if (2 * r <? d)%Z then q
                 else if (d <? 2 * r)%Z then (q + 1)%Z
                 else if Z.even q then q else (q + 1)%Z in
        let y := PrimFloat.div (of_int k) 100 in
        if s then PrimFloat.opp y else y
  | _ => x
  end.

(** [l.remove(x)] on the contents of a list *)
Fixpoint list_remove (x : float) (l : list float) : option (list float) :=
  match l with
  | [] => None
  | y :: t =>
      if PrimFloat.eqb y x then Some t
      else match list_remove x t with
           | Some t' => Some (y :: t')
           | None => None
           end
  end.

Definition calculate_mean (values : list float) : res float :=
  match values with
  | [] => Ok 0%float
  | _ => truediv (sum values) (of_int (len values))
  end.

Definition calculate_std (values : list float) : res float :=
  let n := len values in
  if (n <? 2)%Z then Ok 0%float
  else
    mean ← calculate_mean values;
    squared ← for_each (fun v => pow2 (PrimFloat.sub v mean)) values;
    variance ← truediv (sum squared) (of_int (n - 1));
    math_sqrt variance.

(** [calculate_mean(x)] for the list of [int]s [x = list(range(n))]: the
    sum is an exact [int]. *)
Definition calculate_mean_int (values : list Z) : res float :=
  match values with
  | [] => Ok 0%float
  | _ => truediv (of_int (foldl Z.add 0%Z values)) (of_int (len values))
  end.

Definition calculate_trend (values : list float) : res float :=
  let n := len values in
  if (n <? 2)%Z then Ok 0%float
  else
    let x := range n in
    x_mean ← calculate_mean_int x;
    y_mean ← calculate_mean values;
    num_terms ← for_each (fun i =>
                  vi ← getitem values i;
                  Ok (PrimFloat.mul (PrimFloat.sub (of_int i) x_mean)
                                    (PrimFloat.sub vi y_mean))) (range n);
    den_terms ← for_each (fun i => pow2 (PrimFloat.sub (of_int i) x_mean))
                  (range n);
    let num := sum num_terms in
    let den := sum den_terms in
    if PrimFloat.eqb den 0 then Ok 0%float else truediv num den.

Record eva_result : Type := mk_eva {
  pmp : float;
  frequencyFactor : float;
  lower : float;
  upper : float
}.

Definition eps : float := 1e-6%float.

Definition calculate_pmp_with_eva (amdp_values : list float) : res eva_result :=
  mean ← calculate_mean amdp_values;
  std ← calculate_std amdp_values;
  Xmax ← max amdp_values;
  let rest := match list_remove Xmax amdp_values with
              | Some rest => rest
              | None => amdp_values
              end in
  '(Xmean, S_) ← match rest with
                 | _ :: _ =>
                     Xmean ← calculate_mean rest;
                     s ← calculate_std rest;
                     Ok (Xmean, max2 s eps)
                 | [] => Ok (mean, max2 std eps)
                 end;
  km_a ← truediv (PrimFloat.sub Xmax Xmean) S_;
  km_b ← truediv (PrimFloat.sub Xmax mean) (max2 std eps);
  let frequency_factor_raw := max2 km_a km_b in
  let frequency_factor := max2 1%float (min2 25%float frequency_factor_raw) in
  let frequency_factor := round2 frequency_factor in
  let pmp := PrimFloat.add mean (PrimFloat.mul frequency_factor std) in
  let n := len amdp_values in
  d ← (if (0 <? n)%Z then math_sqrt (of_int n) else Ok 1%float);
  standard_error ← truediv std d;
  Ok (mk_eva pmp frequency_factor
             (PrimFloat.sub pmp (PrimFloat.mul 1.96%float standard_error))
             (PrimFloat.add pmp (PrimFloat.mul 1.96%float standard_error))).

(** The two entries of an annual summary that the calculator reads. *)
Record summary : Type := mk_summary { amdp : float; totalPrecip : float }.

Record report : Type := mk_report {
  meanAMDP : float;
  stdAMDP : float;
  meanAnnualPrecip : float;
  adjustedPmp : float;  (* the entry ['pmp'] *)
  pmpUnadjusted : float;
  reportFrequencyFactor : float;  (* the entry ['frequencyFactor'] *)
  climateAdjustment : float;
  trend : float;
  variability : float;
  dataPoints : Z;
  yearsCovered : Z
}.

Definition calculate_hydrological_parameters
    (annual_data : list summary) (climate_factor : float) : res report :=
  let amdp_values := amdp <$> annual_data in
  let total_precip_vals := totalPrecip <$> annual_data in
  mean_amdp ← calculate_mean amdp_values;
  std_amdp ← calculate_std amdp_values;
  mean_annual_precip ← calculate_mean total_precip_vals;
  eva_results ← calculate_pmp_with_eva amdp_values;
  let adjusted_pmp :=
    if PrimFloat.ltb 0 climate_factor
    then PrimFloat.mul (pmp eva_results) (PrimFloat.add 1 climate_factor)
    else pmp eva_results in
  trend ← calculate_trend amdp_values;
  variability ← (if PrimFloat.eqb mean_amdp 0 then Ok 0%float
                 else q ← truediv std_amdp mean_amdp;
                      Ok (PrimFloat.mul q 100));
  Ok (mk_report mean_amdp std_amdp mean_annual_precip adjusted_pmp
                (pmp eva_results) (frequencyFactor eva_results)
                climate_factor trend variability
                (len annual_data) (len annual_data)).

End B64.


(** ** Specification vocabulary *)

(** The values of the locals at the [return], in terms of the input series
    [xs] and of the final contents [rest_xs] of the list [rest]. *)
Record body_post (xs rest_xs : list R) (fr : Locals.t) : Prop := {
  post_mean : calculate_mean xs = Ok (Locals.mean fr);
  post_std : calculate_std xs = Ok (Locals.std fr);
  post_std_nonneg : 0 <= Locals.std fr;
  post_Xmax : max xs = Ok (Locals.Xmax fr);
  post_rest : list_remove (Locals.Xmax fr) xs = Some rest_xs;
  post_leave_one_out :
    rest_xs <> [] ->
    calculate_mean rest_xs = Ok (Locals.Xmean fr) /\
    exists s, calculate_std rest_xs = Ok s /\ 0 <= s /\ Locals.S fr = max2 s eps;
  post_degenerate :
    rest_xs = [] ->
    Locals.Xmean fr = Locals.mean fr /\ Locals.S fr = max2 (Locals.std fr) eps;
  post_S_floor : eps <= Locals.S fr;
  post_km_a :
    Locals.km_a fr = (Locals.Xmax fr - Locals.Xmean fr) / Locals.S fr;
  post_km_b :
    Locals.km_b fr =
      (Locals.Xmax fr - Locals.mean fr) / max2 (Locals.std fr) eps;
  post_raw :
    Locals.frequency_factor_raw fr = max2 (Locals.km_a fr) (Locals.km_b fr);
  post_ff :
    Locals.frequency_factor fr = round2 (clamp (Locals.frequency_factor_raw fr));
  post_pmp :
    Locals.pmp fr = Locals.mean fr + Locals.frequency_factor fr * Locals.std fr;
  post_n : Locals.n fr = len xs;
  post_se :
    Locals.standard_error fr = Locals.std fr / sqrt (IZR (len xs));
  post_ci :
    Locals.confidence_interval fr =
      CI.mk (Locals.pmp fr - 1.96 * Locals.standard_error fr)
            (Locals.pmp fr + 1.96 * Locals.standard_error fr)
}.

(** An aggregate that is [None] when its valid subset [l] is empty and the
    value [f] computes otherwise. *)
Definition optional_aggregate (l : list R) (f : list R -> res R) (o : option R)
  : Prop :=
  (l = [] -> o = None) /\ (l <> [] -> exists v, o = Some v /\ f l = Ok v).

(** A year without rain: every valid daily value is 0. *)
Definition dry_year : Summary.t :=
  Summary.mk 2020 0 0 None None None None 3.

(** Two years of daily values, and the summaries the aggregator makes of
    them. *)
Definition daily_2020 : gmap string (list (option R)) :=
  {[ "precipitation_sum" := [Some 12; None; Some 40; Some 3] ]}.

Definition daily_2024 : gmap string (list (option R)) :=
  {[ "precipitation_sum" := [Some 55; Some (-1); Some 0] ]}.

Definition summary_2020 : Summary.t :=
  Summary.mk 2020 40 55 None None None None 3.

Definition summary_2024 : Summary.t :=
  Summary.mk 2024 55 55 None None None None 2.

(** An archive that has the years 2020 and 2024, and answers 2021 with a
    body that is not JSON, 2022 with status 500, 2023 without a ['daily']
    object, 2025 with negative precipitation only, and every other year with
    status 404. *)
Definition example_archive (year : Z) : res Http.response :=
  if decide (year = 2020%Z) then Ok (Http.mk 200 (Ok (Some daily_2020)))
  else if decide (year = 2021%Z) then Ok (Http.mk 200 (Raise ValueError))
  else if decide (year = 2022%Z) then Ok (Http.mk 500 (Ok (Some daily_2020)))
  else if decide (year = 2023%Z) then Ok (Http.mk 200 (Ok None))
  else if decide (year = 2024%Z) then Ok (Http.mk 200 (Ok (Some daily_2024)))
  else if decide (year = 2025%Z)
       then Ok (Http.mk 200 (Ok (Some {[ "precipitation_sum" := [Some (-1)] ]})))
       else Ok (Http.mk 404 (Ok None)).


(** * Properties *)

(** ** Numeric built-ins *)

Lemma truediv_ok (a b : R) : b <> 0 -> truediv a b = Ok (a / b).
Proof. intros Hb. unfold truediv. destruct (Req_dec_T b 0); [lra | reflexivity]. Qed.

Lemma math_sqrt_ok (x : R) : 0 <= x -> math_sqrt x = Ok (sqrt x).
Proof. intros Hx. unfold math_sqrt. destruct (Rlt_dec x 0); [lra | reflexivity]. Qed.

Lemma max2_ge_l (a b : R) : a <= max2 a b.
Proof. unfold max2. destruct (Rlt_dec a b); lra. Qed.

Lemma max2_ge_r (a b : R) : b <= max2 a b.
Proof. unfold max2. destruct (Rlt_dec a b); lra. Qed.

Lemma max2_cases (a b : R) : max2 a b = a \/ max2 a b = b.
Proof. unfold max2. destruct (Rlt_dec a b); auto. Qed.

Lemma min2_le_l (a b : R) : min2 a b <= a.
Proof. unfold min2. destruct (Rlt_dec b a); lra. Qed.

Lemma min2_le_r (a b : R) : min2 a b <= b.
Proof. unfold min2. destruct (Rlt_dec b a); lra. Qed.

Lemma min2_cases (a b : R) : min2 a b = a \/ min2 a b = b.
Proof. unfold min2. destruct (Rlt_dec b a); auto. Qed.

Lemma eps_pos : 0 < eps.
Proof. unfold eps. lra. Qed.

Lemma foldl_Rplus (a : R) (l : list R) : foldl Rplus a l = a + sum l.
Proof.
  unfold sum. revert a.
  induction l as [|x l IH]; intros a; simpl; [lra|].
  rewrite (IH (a + x)), (IH (0 + x)). lra.
Qed.

Lemma sum_nil : sum [] = 0.
Proof. reflexivity. Qed.

Lemma sum_cons (x : R) (l : list R) : sum (x :: l) = x + sum l.
Proof. unfold sum at 1. simpl. rewrite foldl_Rplus. lra. Qed.

Lemma sum_nonneg (l : list R) : Forall (fun x => 0 <= x) l -> 0 <= sum l.
Proof.
  induction 1 as [|x l Hx _ IH]; [rewrite sum_nil; lra|].
  rewrite sum_cons. lra.
Qed.

Lemma sum_all_zero (l : list R) : Forall (fun x => x = 0) l -> sum l = 0.
Proof.
  induction 1 as [|x l Hx _ IH]; [reflexivity|].
  rewrite sum_cons. lra.
Qed.

Lemma len_nil {A : Type} : len (@nil A) = 0%Z.
Proof. reflexivity. Qed.

Lemma len_pos {A : Type} (l : list A) : l <> [] -> (0 < len l)%Z.
Proof. destruct l; [congruence|]. intros _. unfold len. simpl. lia. Qed.

Lemma IZR_len_pos {A : Type} (l : list A) : l <> [] -> 0 < IZR (len l).
Proof. intros H. apply IZR_lt. by apply len_pos. Qed.

(** The running maximum is an upper bound and is attained. *)
Lemma foldl_max2_ub (a : R) (l : list R) :
  a <= foldl max2 a l /\ Forall (fun x => x <= foldl max2 a l) l.
Proof.
  revert a. induction l as [|x l IH]; intros a; simpl.
  - split; [lra | constructor].
  - destruct (IH (max2 a x)) as [H1 H2].
    pose proof (max2_ge_l a x). pose proof (max2_ge_r a x).
    split; [lra|]. constructor; [lra | assumption].
Qed.

Lemma foldl_max2_attained (a : R) (l : list R) : foldl max2 a l ∈ a :: l.
Proof.
  revert a. induction l as [|x l IH]; intros a; simpl.
  - apply list_elem_of_here.
  - specialize (IH (max2 a x)).
    apply elem_of_cons in IH as [IH|IH].
    + rewrite IH. destruct (max2_cases a x) as [->| ->].
      * apply list_elem_of_here.
      * apply list_elem_of_further, list_elem_of_here.
    + by do 2 apply list_elem_of_further.
Qed.

Lemma max_nonempty (l : list R) : l <> [] -> exists m, max l = Ok m.
Proof. destruct l; [congruence|]. intros _. eexists. reflexivity. Qed.

Lemma max_spec (l : list R) (m : R) :
  max l = Ok m -> m ∈ l /\ Forall (fun x => x <= m) l.
Proof.
  destruct l as [|a l]; [discriminate|].
  intros [= <-]. split; [apply foldl_max2_attained|].
  destruct (foldl_max2_ub a l). by constructor.
Qed.

Lemma foldl_min2_lb (a : R) (l : list R) :
  foldl min2 a l <= a /\ Forall (fun x => foldl min2 a l <= x) l.
Proof.
  revert a. induction l as [|x l IH]; intros a; simpl.
  - split; [lra | constructor].
  - destruct (IH (min2 a x)) as [H1 H2].
    pose proof (min2_le_l a x). pose proof (min2_le_r a x).
    split; [lra|]. constructor; [lra | assumption].
Qed.

Lemma foldl_min2_attained (a : R) (l : list R) : foldl min2 a l ∈ a :: l.
Proof.
  revert a. induction l as [|x l IH]; intros a; simpl.
  - apply list_elem_of_here.
  - specialize (IH (min2 a x)).
    apply elem_of_cons in IH as [IH|IH].
    + rewrite IH. destruct (min2_cases a x) as [->| ->].
      * apply list_elem_of_here.
      * apply list_elem_of_further, list_elem_of_here.
    + by do 2 apply list_elem_of_further.
Qed.

Lemma min_spec (l : list R) (m : R) :
  min l = Ok m -> m ∈ l /\ Forall (fun x => m <= x) l.
Proof.
  destruct l as [|a l]; [discriminate|].
  intros [= <-]. split; [apply foldl_min2_attained|].
  destruct (foldl_min2_lb a l). by constructor.
Qed.

(** [list.remove] drops the first occurrence and nothing else. *)
Lemma list_remove_first (x : R) (l : list R) :
  x ∈ l ->
  exists l1 l2, l = l1 ++ x :: l2 /\ (x ∉ l1) /\ list_remove x l = Some (l1 ++ l2).
Proof.
  induction l as [|y l IH]; intros Hin.
  - by apply elem_of_nil in Hin.
  - simpl. destruct (Req_dec_T y x) as [->|Hne].
    + exists [], l. split; [reflexivity|]. split; [apply not_elem_of_nil | reflexivity].
    + apply elem_of_cons in Hin as [->|Hin]; [congruence|].
      destruct (IH Hin) as (l1 & l2 & -> & Hn & ->).
      exists (y :: l1), l2. split; [reflexivity|]. split; [|reflexivity].
      rewrite not_elem_of_cons. split; [congruence | assumption].
Qed.

Lemma list_remove_absent (x : R) (l : list R) : x ∉ l -> list_remove x l = None.
Proof.
  induction l as [|y l IH]; intros Hn; [reflexivity|].
  apply not_elem_of_cons in Hn as [Hne Hn]. simpl.
  destruct (Req_dec_T y x); [congruence|]. by rewrite IH.
Qed.

(** ** Descriptive statistics never raise *)

Lemma calculate_mean_nonempty (values : list R) :
  values <> [] -> calculate_mean values = Ok (sum values / IZR (len values)).
Proof.
  intros Hne. pose proof (IZR_len_pos values Hne).
  destruct values; [congruence|]. unfold calculate_mean.
  apply truediv_ok. lra.
Qed.

Lemma calculate_mean_total (values : list R) : exists m, calculate_mean values = Ok m.
Proof.
  destruct values as [|v values]; [by exists 0|].
  eexists. by apply calculate_mean_nonempty.
Qed.

Lemma squares_nonneg (m : R) (values : list R) :
  Forall (fun x => 0 <= x) ((fun v => (v - m) ^ 2) <$> values).
Proof.
  apply Forall_fmap, Forall_true. intros v. apply pow2_ge_0.
Qed.

Lemma calculate_std_short (values : list R) :
  (len values < 2)%Z -> calculate_std values = Ok 0.
Proof.
  intros Hn. unfold calculate_std. apply Z.ltb_lt in Hn. by rewrite Hn.
Qed.

(** For two or more values the code computes the square root of the
    Bessel-corrected variance. *)
Lemma calculate_std_long (values : list R) (m : R) :
  (2 <= len values)%Z ->
  calculate_mean values = Ok m ->
  calculate_std values =
    Ok (sqrt (sum ((fun v => (v - m) ^ 2) <$> values) / IZR (len values - 1))).
Proof.
  intros Hn Hm. unfold calculate_std.
  destruct (Z.ltb_spec (len values) 2) as [?|_]; [lia|].
  rewrite Hm. cbn [mbind res_bind rbind].
  assert (0 < IZR (len values - 1)) as Hpos by (apply IZR_lt; lia).
  rewrite truediv_ok by lra. cbn [rbind].
  apply math_sqrt_ok.
  apply Rmult_le_pos; [apply sum_nonneg, squares_nonneg|].
  left. by apply Rinv_0_lt_compat.
Qed.

Lemma calculate_std_total (values : list R) :
  exists s, calculate_std values = Ok s /\ 0 <= s.
Proof.
  destruct (Z.lt_ge_cases (len values) 2) as [Hn|Hn].
  - exists 0. split; [by apply calculate_std_short | lra].
  - destruct (calculate_mean_total values) as [m Hm].
    eexists. split; [by apply calculate_std_long|]. apply sqrt_pos.
Qed.

(** ** Running computations in the store *)

Lemma bind_run {A B : Type} (m : M A) (k : A -> M B) (h h' : heap) (a : A) :
  m h = (Ok a, h') -> (m ≫= k) h = k a h'.
Proof. intros Hm. unfold mbind, M_bind. by rewrite Hm. Qed.

Lemma ret_run {A : Type} (a : A) (h : heap) : (mret a : M A) h = (Ok a, h).
Proof. reflexivity. Qed.

Lemma lift_run {A : Type} (r : res A) (h : heap) : lift r h = (r, h).
Proof. reflexivity. Qed.

Lemma deref_run (l : loc) (h : heap) (xs : list R) :
  h !! l = Some xs -> deref l h = (Ok xs, h).
Proof. intros Hl. unfold deref. by rewrite Hl. Qed.

Lemma call_run {A : Type} (f : list R -> res A) (l : loc) (h : heap) (xs : list R) :
  h !! l = Some xs -> call f l h = (f xs, h).
Proof.
  intros Hl. unfold call. by rewrite (bind_run _ _ h h xs (deref_run l h xs Hl)).
Qed.

Lemma list_copy_run (l : loc) (h : heap) (xs : list R) :
  h !! l = Some xs ->
  list_copy l h = (Ok (fresh (dom h)), <[fresh (dom h) := xs]> h).
Proof.
  intros Hl. unfold list_copy.
  by rewrite (bind_run _ _ h h xs (deref_run l h xs Hl)).
Qed.

Lemma remove_run (l : loc) (x : R) (h : heap) (xs xs' : list R) :
  h !! l = Some xs -> list_remove x xs = Some xs' ->
  remove l x h = (Ok (), <[l := xs']> h).
Proof. intros Hl Hr. unfold remove. by rewrite Hl, Hr. Qed.

Lemma fresh_loc_ne (h : heap) (l : loc) (xs : list R) :
  h !! l = Some xs -> fresh (dom h) <> l.
Proof.
  intros Hl Heq. apply (is_fresh (dom h)). rewrite Heq.
  apply elem_of_dom. by exists xs.
Qed.

Lemma fresh_loc_unused (h : heap) : h !! fresh (dom h) = None.
Proof. apply not_elem_of_dom, is_fresh. Qed.

(** ** What [calculate_pmp_with_eva] computes *)

Lemma try_except_ok {A : Type} (e : exn) (body handler : M A) (h h' : heap) (a : A) :
  body h = (Ok a, h') -> try_except e body handler h = (Ok a, h').
Proof. intros Hb. unfold try_except. by rewrite Hb. Qed.

Lemma se_divisor_pos (n : Z) : (0 < n)%Z -> se_divisor n = Ok (sqrt (IZR n)).
Proof.
  intros Hn. unfold se_divisor.
  destruct (Z.ltb_spec 0 n) as [_|?]; [|lia].
  apply math_sqrt_ok. left. by apply IZR_lt.
Qed.

(** On a non-empty series the body runs to its [return]: it allocates one
    list object, [rest], and leaves every other object as it was. *)
Lemma body_run (h : heap) (l : loc) (xs : list R) :
  h !! l = Some xs -> xs <> [] ->
  exists fr rest_xs,
    calculate_pmp_with_eva_body l h = (Ok fr, <[fresh (dom h) := rest_xs]> h) /\
    Locals.rest fr = fresh (dom h) /\
    body_post xs rest_xs fr.
Proof.
  intros Hl Hne.
  destruct (calculate_mean_total xs) as [mean Hmean].
  destruct (calculate_std_total xs) as (std & Hstd & Hstd0).
  destruct (max_nonempty xs Hne) as [Xmax HXmax].
  destruct (max_spec xs Xmax HXmax) as [Hin _].
  destruct (list_remove_first Xmax xs Hin) as (l1 & l2 & Hxs & _ & Hrm).
  set (rest_xs := l1 ++ l2) in *.
  set (l' := fresh (dom h)).
  unfold calculate_pmp_with_eva_body.
  rewrite (bind_run _ _ h h mean) by (by rewrite (call_run _ _ _ xs), Hmean).
  rewrite (bind_run _ _ h h std) by (by rewrite (call_run _ _ _ xs), Hstd).
  rewrite (bind_run _ _ h h Xmax) by (by rewrite (call_run _ _ _ xs), HXmax).
  rewrite (bind_run _ _ h (<[l' := xs]> h) l') by (by apply list_copy_run).
  assert (<[l' := rest_xs]> (<[l' := xs]> h) = <[l' := rest_xs]> h) as Hheap
    by apply insert_insert_eq.
  rewrite (bind_run _ _ _ (<[l' := rest_xs]> h) l').
  2:{ apply try_except_ok.
      rewrite (bind_run _ _ _ (<[l' := rest_xs]> h) ()); [reflexivity|].
      rewrite <- Hheap. apply (remove_run _ _ _ xs); [apply lookup_insert_eq | assumption]. }
  assert (<[l' := rest_xs]> h !! l' = Some rest_xs) as Hl' by apply lookup_insert_eq.
  assert (<[l' := rest_xs]> h !! l = Some xs) as Hl2.
  { rewrite lookup_insert_ne; [assumption|]. by apply (fresh_loc_ne h l xs). }
  rewrite (bind_run _ _ _ _ rest_xs (deref_run _ _ _ Hl')).
  set (h2 := <[l' := rest_xs]> h) in *.
  set (branch := match rest_xs with [] => _ | _ :: _ => _ end).
  assert (exists Xmean S_,
    branch h2 = (Ok (Xmean, S_), h2) /\ eps <= S_ /\
    (rest_xs <> [] ->
       calculate_mean rest_xs = Ok Xmean /\
       exists s, calculate_std rest_xs = Ok s /\ 0 <= s /\ S_ = max2 s eps) /\
    (rest_xs = [] -> Xmean = mean /\ S_ = max2 std eps))
    as (Xmean & S_ & Hbranch & HS & Hloo & Hdeg).
  { subst branch. destruct rest_xs as [|r rest_tl] eqn:Hrest.
    - exists mean, (max2 std eps). split; [reflexivity|].
      split; [apply max2_ge_r|]. split; [congruence | done].
    - destruct (calculate_mean_total (r :: rest_tl)) as [Xmean HXmean].
      destruct (calculate_std_total (r :: rest_tl)) as (s & Hs & Hs0).
      exists Xmean, (max2 s eps).
      rewrite (bind_run _ _ h2 h2 Xmean)
        by (by rewrite (call_run _ _ _ (r :: rest_tl)), HXmean).
      rewrite (bind_run _ _ h2 h2 s)
        by (by rewrite (call_run _ _ _ (r :: rest_tl)), Hs).
      split; [reflexivity|]. split; [apply max2_ge_r|].
      split; [|congruence]. intros _. split; [assumption|]. by exists s. }
  pose proof eps_pos as Heps.
  pose proof (max2_ge_r std eps) as Hd.
  rewrite (bind_run _ _ h2 h2 (Xmean, S_) Hbranch).
  rewrite (bind_run _ _ h2 h2 ((Xmax - Xmean) / S_))
    by (by rewrite lift_run, truediv_ok by lra).
  rewrite (bind_run _ _ h2 h2 ((Xmax - mean) / max2 std eps))
    by (by rewrite lift_run, truediv_ok by lra).
  rewrite (bind_run _ _ h2 h2 (len xs))
    by (by rewrite (bind_run _ _ h2 h2 xs (deref_run _ _ _ Hl2))).
  pose proof (len_pos xs Hne) as Hlen.
  assert (0 < sqrt (IZR (len xs))) as Hsqrt by (apply sqrt_lt_R0; by apply IZR_lt).
  rewrite (bind_run _ _ h2 h2 (sqrt (IZR (len xs))))
    by (by rewrite lift_run, se_divisor_pos).
  rewrite (bind_run _ _ h2 h2 (std / sqrt (IZR (len xs))))
    by (by rewrite lift_run, truediv_ok by lra).
  eexists _, rest_xs. split; [reflexivity|]. split; [reflexivity|].
  constructor; simpl; try done.
Qed.

Lemma eva_run (h : heap) (l : loc) (xs : list R) :
  h !! l = Some xs -> xs <> [] ->
  exists fr rest_xs,
    calculate_pmp_with_eva_body l h = (Ok fr, <[fresh (dom h) := rest_xs]> h) /\
    calculate_pmp_with_eva l h =
      (Ok (EVA.mk (Locals.pmp fr) (Locals.frequency_factor fr)
                  (Locals.confidence_interval fr)),
       <[fresh (dom h) := rest_xs]> h) /\
    Locals.rest fr = fresh (dom h) /\
    body_post xs rest_xs fr.
Proof.
  intros Hl Hne.
  destruct (body_run h l xs Hl Hne) as (fr & rest_xs & Hrun & Hrest & Hpost).
  exists fr, rest_xs. split; [assumption|]. split; [|done].
  unfold calculate_pmp_with_eva. by rewrite (bind_run _ _ _ _ _ Hrun).
Qed.

(** ** Clamping and rounding *)

Lemma clamp_bounds (raw : R) : 1 <= clamp raw <= 25.
Proof.
  unfold clamp, max2, min2.
  destruct (Rlt_dec raw 25), (Rlt_dec 1 _); lra.
Qed.

Lemma round_half_even_cases (y : R) :
  round_half_even y = Zfloor y \/
  (round_half_even y = (Zfloor y + 1)%Z /\ IZR (Zfloor y) < y).
Proof.
  unfold round_half_even.
  destruct (Rlt_dec _ _) as [|Hge]; [by left|].
  destruct (Rlt_dec _ _) as [Hgt|]; [right; split; [reflexivity | lra]|].
  destruct (Z.even _); [by left|]. right. split; [reflexivity | lra].
Qed.

Lemma round_half_even_lb (a : Z) (y : R) :
  IZR a <= y -> (a <= round_half_even y)%Z.
Proof.
  intros Hay. pose proof (Zfloor_lub a y Hay).
  destruct (round_half_even_cases y) as [->|[-> _]]; lia.
Qed.

Lemma round_half_even_ub (b : Z) (y : R) :
  y <= IZR b -> (round_half_even y <= b)%Z.
Proof.
  intros Hyb. destruct (Zfloor_bound y) as [Hf _].
  destruct (round_half_even_cases y) as [->|[-> Hlt]].
  - apply le_IZR. lra.
  - assert (Zfloor y < b)%Z by (apply lt_IZR; lra). lia.
Qed.

Lemma round_half_even_IZR (z : Z) : round_half_even (IZR z) = z.
Proof.
  unfold round_half_even. rewrite ZfloorZ.
  destruct (Rlt_dec _ _); [reflexivity | lra].
Qed.

Lemma round2_bounds (x : R) : 1 <= x <= 25 -> 1 <= round2 x <= 25.
Proof.
  intros [Hlo Hhi]. unfold round2.
  assert (100 <= round_half_even (x * 100))%Z as H1
    by (apply round_half_even_lb; lra).
  assert (round_half_even (x * 100) <= 2500)%Z as H2
    by (apply round_half_even_ub; lra).
  apply IZR_le in H1, H2. lra.
Qed.

Lemma round2_one : round2 1 = 1.
Proof.
  unfold round2. replace (1 * 100) with (IZR 100) by lra.
  rewrite round_half_even_IZR. lra.
Qed.

Lemma frequency_factor_bounds (xs rest_xs : list R) (fr : Locals.t) :
  body_post xs rest_xs fr -> 1 <= Locals.frequency_factor fr <= 25.
Proof. intros Hp. rewrite (post_ff _ _ _ Hp). apply round2_bounds, clamp_bounds. Qed.

(** ** The estimator's results *)

(** C1: for every non-empty AMDP series of positive numbers the estimator
    returns, and the [frequencyFactor] it returns lies in [[1.0, 25.0]]. *)
Theorem frequency_factor_in_range (h : heap) (l : loc) (xs : list R) :
  h !! l = Some xs -> xs <> [] -> Forall (fun x => 0 < x) xs ->
  exists r h',
    calculate_pmp_with_eva l h = (Ok r, h') /\
    1 <= EVA.frequencyFactor r <= 25.
Proof.
  intros Hl Hne _.
  destruct (eva_run h l xs Hl Hne) as (fr & rest_xs & _ & Hrun & _ & Hpost).
  eexists _, _. split; [exact Hrun|]. simpl.
  by apply (frequency_factor_bounds xs rest_xs).
Qed.

Lemma frequency_factor_in_range_witness :
  exists r h',
    calculate_pmp_with_eva 1%positive {[ 1%positive := [40; 55; 30] ]} = (Ok r, h') /\
    1 <= EVA.frequencyFactor r <= 25.
Proof.
  apply (frequency_factor_in_range _ _ [40; 55; 30]).
  - apply lookup_singleton_eq.
  - discriminate.
  - repeat constructor; lra.
Defined.

(** C2: for every non-empty AMDP series the estimator returns a [pmp] that is
    at least the mean of the series. *)
Theorem pmp_at_least_mean (h : heap) (l : loc) (xs : list R) :
  h !! l = Some xs -> xs <> [] ->
  exists r h' m,
    calculate_pmp_with_eva l h = (Ok r, h') /\
    calculate_mean xs = Ok m /\
    m <= EVA.pmp r.
Proof.
  intros Hl Hne.
  destruct (eva_run h l xs Hl Hne) as (fr & rest_xs & _ & Hrun & _ & Hpost).
  eexists _, _, (Locals.mean fr). split; [exact Hrun|].
  split; [apply (post_mean _ _ _ Hpost)|]. simpl.
  rewrite (post_pmp _ _ _ Hpost).
  pose proof (frequency_factor_bounds _ _ _ Hpost).
  pose proof (post_std_nonneg _ _ _ Hpost). nra.
Qed.

Lemma pmp_at_least_mean_witness :
  exists r h' m,
    calculate_pmp_with_eva 1%positive {[ 1%positive := [40; 55; 30] ]} = (Ok r, h') /\
    calculate_mean [40; 55; 30] = Ok m /\
    m <= EVA.pmp r.
Proof.
  apply (pmp_at_least_mean _ _ [40; 55; 30]).
  - apply lookup_singleton_eq.
  - discriminate.
Defined.

(** ** The list [rest] *)

Lemma max_duplicate_example : max [50; 50; 10; 12] = Ok 50.
Proof.
  unfold max. cbn [foldl]. unfold max2.
  repeat (destruct (Rlt_dec _ _); try lra). reflexivity.
Qed.

Lemma list_remove_head (x : R) (l : list R) : list_remove x (x :: l) = Some l.
Proof. simpl. destruct (Req_dec_T x x); [reflexivity | congruence]. Qed.

(** An occurrence of [x] other than the first one survives the removal. *)
Lemma later_occurrence_stays (x : R) (l1 l2 : list R) (k : nat) :
  x ∉ l1 -> (l1 ++ x :: l2) !! k = Some x -> k <> length l1 -> x ∈ l1 ++ l2.
Proof.
  intros Hn Hk Hne. destruct (Nat.lt_ge_cases k (length l1)) as [Hlt|Hge].
  - rewrite lookup_app_l in Hk by assumption.
    exfalso. apply Hn. by apply list_elem_of_lookup_2 in Hk.
  - rewrite lookup_app_r in Hk by assumption.
    destruct (k - length l1)%nat as [|k'] eqn:Hk'; [lia|]. simpl in Hk.
    apply elem_of_app. right. by apply list_elem_of_lookup_2 in Hk.
Qed.

(** C3: [rest] is the input series with the first occurrence of [Xmax]
    removed and nothing else; further occurrences of [Xmax] stay in it.  For
    [[50, 50, 10, 12]] it is [[50, 10, 12]], for a series of length 1 it is
    empty. *)
Theorem rest_drops_one_maximum (h : heap) (l : loc) (xs : list R) :
  h !! l = Some xs -> xs <> [] ->
  exists fr h' rest_xs,
    calculate_pmp_with_eva_body l h = (Ok fr, h') /\
    h' !! Locals.rest fr = Some rest_xs /\
    max xs = Ok (Locals.Xmax fr) /\
    (exists l1 l2,
        xs = l1 ++ Locals.Xmax fr :: l2 /\ rest_xs = l1 ++ l2 /\
        (Locals.Xmax fr ∉ l1)) /\
    length rest_xs = (length xs - 1)%nat /\
    (forall i j : nat,
        i <> j -> xs !! i = Some (Locals.Xmax fr) ->
        xs !! j = Some (Locals.Xmax fr) -> Locals.Xmax fr ∈ rest_xs) /\
    (xs = [50; 50; 10; 12] -> rest_xs = [50; 10; 12] /\ length rest_xs = 3%nat) /\
    (length xs = 1%nat -> rest_xs = []).
Proof.
  intros Hl Hne.
  destruct (eva_run h l xs Hl Hne) as (fr & rest_xs & Hrun & _ & Hrest & Hpost).
  exists fr, (<[fresh (dom h) := rest_xs]> h), rest_xs.
  pose proof (post_Xmax _ _ _ Hpost) as HXmax.
  pose proof (post_rest _ _ _ Hpost) as Hrm.
  destruct (max_spec _ _ HXmax) as [Hin _].
  destruct (list_remove_first _ _ Hin) as (l1 & l2 & Hxs & Hn & Hrm').
  assert (rest_xs = l1 ++ l2) as Hdec by congruence.
  split; [assumption|].
  split; [rewrite Hrest; apply lookup_insert_eq|].
  split; [assumption|].
  split; [by exists l1, l2|].
  split; [rewrite Hdec, Hxs, !length_app; simpl; lia|].
  split; [|split].
  - intros i j Hij Hi Hj. rewrite Hdec. rewrite Hxs in Hi, Hj.
    destruct (decide (i = length l1)) as [->|Hi'].
    + by apply (later_occurrence_stays _ _ _ j).
    + by apply (later_occurrence_stays _ _ _ i).
  - intros ->. rewrite max_duplicate_example in HXmax.
    injection HXmax as HX. rewrite <- HX, list_remove_head in Hrm.
    by injection Hrm as <-.
  - intros Hlen. destruct xs as [|a [|b xs]]; try discriminate.
    injection HXmax as HX. rewrite <- HX, list_remove_head in Hrm.
    by injection Hrm as <-.
Qed.

Lemma rest_drops_one_maximum_witness :
  exists fr h' rest_xs,
    calculate_pmp_with_eva_body 1%positive {[ 1%positive := [50; 50; 10; 12] ]}
      = (Ok fr, h') /\
    h' !! Locals.rest fr = Some rest_xs /\
    rest_xs = [50; 10; 12].
Proof.
  destruct (rest_drops_one_maximum {[ 1%positive := [50; 50; 10; 12] ]}
              1%positive [50; 50; 10; 12])
    as (fr & h' & rest_xs & Hrun & Hrest & _ & _ & _ & _ & Hex & _).
  - apply lookup_singleton_eq.
  - discriminate.
  - exists fr, h', rest_xs. split; [assumption|]. split; [assumption|].
    by destruct (Hex eq_refl).
Defined.

(** ** No exception on a non-empty series *)

Lemma se_divisor_total (n : Z) : exists d, se_divisor n = Ok d /\ 0 < d.
Proof.
  unfold se_divisor. destruct (Z.ltb_spec 0 n) as [Hn|_].
  - exists (sqrt (IZR n)). assert (0 < IZR n) by (by apply IZR_lt).
    split; [apply math_sqrt_ok; lra | by apply sqrt_lt_R0].
  - exists 1. split; [reflexivity | lra].
Qed.

(** In exact arithmetic the estimator returns a result on every non-empty
    series without raising: the divisors [S] and [max(std, eps)] are at
    least [eps = 1e-6 > 0], the divisor of the standard error is positive
    (and is 1 when [n] is not positive), a zero standard deviation is
    replaced by [eps] as divisor, and the series of length 1 takes the
    fallback branch [Xmean = mean], [S = max(std, eps)]. *)
Lemma estimator_never_raises_exact (h : heap) (l : loc) (xs : list R) :
  h !! l = Some xs -> xs <> [] ->
  exists r fr h',
    calculate_pmp_with_eva l h = (Ok r, h') /\
    calculate_pmp_with_eva_body l h = (Ok fr, h') /\
    0 < eps /\ eps = 1 / 1000000 /\
    eps <= Locals.S fr /\
    eps <= max2 (Locals.std fr) eps /\
    (exists d, se_divisor (Locals.n fr) = Ok d /\ 0 < d) /\
    (forall n, exists d, se_divisor n = Ok d /\ 0 < d) /\
    se_divisor 0 = Ok 1 /\
    (Locals.std fr = 0 -> max2 (Locals.std fr) eps = eps) /\
    (length xs = 1%nat ->
       Locals.Xmean fr = Locals.mean fr /\
       Locals.S fr = max2 (Locals.std fr) eps).
Proof.
  intros Hl Hne.
  destruct (eva_run h l xs Hl Hne) as (fr & rest_xs & Hbody & Hrun & _ & Hpost).
  eexists _, fr, _. split; [exact Hrun|]. split; [exact Hbody|].
  split; [apply eps_pos|]. split; [reflexivity|].
  split; [apply (post_S_floor _ _ _ Hpost)|].
  split; [apply max2_ge_r|].
  split; [apply se_divisor_total|].
  split; [apply se_divisor_total|].
  split; [reflexivity|].
  split.
  { intros ->. pose proof eps_pos. unfold max2.
    destruct (Rlt_dec 0 eps); [reflexivity | lra]. }
  intros Hlen. apply (post_degenerate _ _ _ Hpost).
  pose proof (post_Xmax _ _ _ Hpost) as HXmax.
  pose proof (post_rest _ _ _ Hpost) as Hrm.
  destruct xs as [|a [|b xs]]; try discriminate.
  injection HXmax as HX. rewrite <- HX, list_remove_head in Hrm. congruence.
Qed.

(** ** Constant series *)

Section Constant.
Variable c : R.
Implicit Types xs : list R.

Let all_c xs : Prop := Forall (fun x => x = c) xs.

Lemma sum_constant xs : all_c xs -> sum xs = IZR (len xs) * c.
Proof.
  induction 1 as [|x xs Hx _ IH]; [unfold sum, len; simpl; change (Z.of_nat 0) with 0%Z; lra|].
  rewrite sum_cons, IH, Hx. unfold len. simpl length.
  rewrite Nat2Z.inj_succ, succ_IZR. lra.
Qed.

Lemma mean_constant xs : xs <> [] -> all_c xs -> calculate_mean xs = Ok c.
Proof.
  intros Hne Hc. pose proof (IZR_len_pos xs Hne).
  rewrite calculate_mean_nonempty by assumption.
  rewrite (sum_constant xs Hc). f_equal. field. lra.
Qed.

Lemma std_constant xs : all_c xs -> calculate_std xs = Ok 0.
Proof.
  intros Hc. destruct (Z.lt_ge_cases (len xs) 2) as [Hn|Hn].
  - by apply calculate_std_short.
  - assert (xs <> []) as Hne by (intros ->; rewrite len_nil in Hn; lia).
    rewrite (calculate_std_long xs c) by (by try apply mean_constant).
    rewrite sum_all_zero.
    + unfold Rdiv. by rewrite Rmult_0_l, sqrt_0.
    + apply Forall_fmap. eapply Forall_impl; [exact Hc|].
      intros x ->. simpl. lra.
Qed.

Lemma max_constant xs m : all_c xs -> max xs = Ok m -> m = c.
Proof.
  intros Hc Hm. destruct (max_spec _ _ Hm) as [Hin _].
  by apply (proj1 (Forall_forall _ _) Hc).
Qed.

Lemma list_remove_constant xs x rest_xs :
  all_c xs -> list_remove x xs = Some rest_xs -> all_c rest_xs.
Proof.
  intros Hc. revert rest_xs.
  induction Hc as [|y xs Hy Hc IH]; intros rest_xs Hrm; [discriminate|].
  simpl in Hrm. destruct (Req_dec_T y x); [by injection Hrm as <-|].
  destruct (list_remove x xs) as [t|]; [|discriminate].
  injection Hrm as <-. constructor; [assumption | by apply IH].
Qed.
End Constant.

Lemma clamp_zero : clamp 0 = 1.
Proof.
  unfold clamp, min2, max2.
  destruct (Rlt_dec 0 25); [|lra]. destruct (Rlt_dec 1 0); [lra | reflexivity].
Qed.

Lemma max2_same (a : R) : max2 a a = a.
Proof. by destruct (max2_cases a a). Qed.

(** In exact arithmetic, for a non-empty series whose values all equal
    [c], the sample standard deviation of the series is 0, both candidate
    factors [km_a] and [km_b] are 0, the frequency factor is clamped to
    exactly 1.0 and [pmp] is [c]. *)
Lemma constant_series_estimate_exact (h : heap) (l : loc) (xs : list R) (c : R) :
  h !! l = Some xs -> xs <> [] -> Forall (fun x => x = c) xs ->
  exists r fr h',
    calculate_pmp_with_eva l h = (Ok r, h') /\
    calculate_pmp_with_eva_body l h = (Ok fr, h') /\
    calculate_std xs = Ok 0 /\
    Locals.std fr = 0 /\
    Locals.km_a fr = 0 /\
    Locals.km_b fr = 0 /\
    EVA.frequencyFactor r = 1 /\
    EVA.pmp r = c.
Proof.
  intros Hl Hne Hc.
  destruct (eva_run h l xs Hl Hne) as (fr & rest_xs & Hbody & Hrun & _ & Hpost).
  eexists _, fr, _. split; [exact Hrun|]. split; [exact Hbody|]. simpl.
  pose proof (post_mean _ _ _ Hpost) as Hmean.
  rewrite (mean_constant c xs Hne Hc) in Hmean. injection Hmean as Hmean.
  pose proof (post_std _ _ _ Hpost) as Hstd.
  rewrite (std_constant c xs Hc) in Hstd. injection Hstd as Hstd.
  pose proof (max_constant c xs _ Hc (post_Xmax _ _ _ Hpost)) as HXmax.
  pose proof (list_remove_constant c xs _ _ Hc (post_rest _ _ _ Hpost)) as Hrc.
  assert (Locals.Xmean fr = c) as HXmean.
  { destruct rest_xs as [|y rest_tl] eqn:Hrest.
    - destruct (post_degenerate _ _ _ Hpost eq_refl) as [-> _]. by symmetry.
    - destruct (post_leave_one_out _ _ _ Hpost) as [HX _]; [discriminate|].
      rewrite (mean_constant c) in HX by done. by injection HX as <-. }
  pose proof (post_S_floor _ _ _ Hpost) as HS. pose proof eps_pos as Heps.
  assert (Locals.km_a fr = 0) as Hka.
  { rewrite (post_km_a _ _ _ Hpost), HXmax, HXmean. unfold Rdiv. lra. }
  assert (Locals.km_b fr = 0) as Hkb.
  { rewrite (post_km_b _ _ _ Hpost), HXmax, <- Hmean. unfold Rdiv. lra. }
  assert (Locals.frequency_factor fr = 1) as Hff.
  { rewrite (post_ff _ _ _ Hpost), (post_raw _ _ _ Hpost), Hka, Hkb.
    by rewrite max2_same, clamp_zero, round2_one. }
  split; [by apply (std_constant c)|]. split; [by symmetry|].
  split; [assumption|]. split; [assumption|]. split; [assumption|].
  rewrite (post_pmp _ _ _ Hpost), Hff, <- Hstd, <- Hmean. lra.
Qed.

(** C7: on a non-empty series of length [n] the confidence interval is
    [pmp - 1.96 * (std / sqrt n)] to [pmp + 1.96 * (std / sqrt n)], where
    [std] is the sample standard deviation of the series; the divisor
    expression yields 1 in place of [sqrt n] when [n = 0]. *)
Theorem confidence_interval_formula (h : heap) (l : loc) (xs : list R) :
  h !! l = Some xs -> xs <> [] ->
  exists r h' std,
    calculate_pmp_with_eva l h = (Ok r, h') /\
    calculate_std xs = Ok std /\
    EVA.confidenceInterval r =
      CI.mk (EVA.pmp r - 1.96 * (std / sqrt (IZR (len xs))))
            (EVA.pmp r + 1.96 * (std / sqrt (IZR (len xs)))) /\
    se_divisor (len xs) = Ok (sqrt (IZR (len xs))) /\
    se_divisor 0 = Ok 1.
Proof.
  intros Hl Hne.
  destruct (eva_run h l xs Hl Hne) as (fr & rest_xs & _ & Hrun & _ & Hpost).
  eexists _, _, (Locals.std fr). split; [exact Hrun|].
  split; [apply (post_std _ _ _ Hpost)|]. simpl.
  split; [|split; [apply se_divisor_pos; by apply len_pos | reflexivity]].
  by rewrite (post_ci _ _ _ Hpost), (post_se _ _ _ Hpost).
Qed.

Lemma confidence_interval_formula_witness :
  exists r h' std,
    calculate_pmp_with_eva 1%positive {[ 1%positive := [40; 55; 30] ]} = (Ok r, h') /\
    calculate_std [40; 55; 30] = Ok std /\
    CI.lower (EVA.confidenceInterval r) =
      EVA.pmp r - 1.96 * (std / sqrt (IZR (len [40; 55; 30]))).
Proof.
  destruct (confidence_interval_formula {[ 1%positive := [40; 55; 30] ]}
              1%positive [40; 55; 30])
    as (r & h' & std & Hrun & Hstd & Hci & _).
  - apply lookup_singleton_eq.
  - discriminate.
  - exists r, h', std. split; [assumption|]. split; [assumption|].
    by rewrite Hci.
Defined.

(** C10: the estimator leaves its argument as it found it: the removal
    works on [rest], a list object that did not exist before the call, and
    every list object of the initial store, the input among them, has the
    same contents after the call. *)
Theorem estimator_preserves_input (h : heap) (l : loc) (xs : list R) :
  h !! l = Some xs -> xs <> [] ->
  exists r fr h',
    calculate_pmp_with_eva l h = (Ok r, h') /\
    calculate_pmp_with_eva_body l h = (Ok fr, h') /\
    h' !! l = Some xs /\
    Locals.rest fr <> l /\
    h !! Locals.rest fr = None /\
    (forall (l0 : loc) (ys : list R), h !! l0 = Some ys -> h' !! l0 = Some ys).
Proof.
  intros Hl Hne.
  destruct (eva_run h l xs Hl Hne) as (fr & rest_xs & Hbody & Hrun & Hrest & _).
  eexists _, fr, _. split; [exact Hrun|]. split; [exact Hbody|].
  assert (forall (l0 : loc) (ys : list R),
             h !! l0 = Some ys -> <[fresh (dom h) := rest_xs]> h !! l0 = Some ys)
    as Hframe.
  { intros l0 ys Hl0. rewrite lookup_insert_ne; [assumption|].
    by apply (fresh_loc_ne h l0 ys). }
  split; [by apply Hframe|]. rewrite Hrest.
  split; [by apply (fresh_loc_ne h l xs)|].
  split; [apply fresh_loc_unused | assumption].
Qed.

Lemma estimator_preserves_input_witness :
  exists r h',
    calculate_pmp_with_eva 1%positive {[ 1%positive := [50; 50; 10; 12] ]}
      = (Ok r, h') /\
    h' !! 1%positive = Some [50; 50; 10; 12].
Proof.
  destruct (estimator_preserves_input {[ 1%positive := [50; 50; 10; 12] ]}
              1%positive [50; 50; 10; 12])
    as (r & _ & h' & Hrun & _ & Hsame & _).
  - apply lookup_singleton_eq.
  - discriminate.
  - by exists r, h'.
Defined.

(** ** The trend slope *)

Lemma for_each_total {A B : Type} (f : A -> res B) (l : list A) :
  Forall (fun a => exists b, f a = Ok b) l -> exists bs, for_each f l = Ok bs.
Proof.
  induction 1 as [|a l [b Hb] _ [bs IH]]; [by exists []|].
  exists (b :: bs). simpl. by rewrite Hb, IH.
Qed.

Lemma getitem_in_range (l : list R) (k : nat) :
  (k < length l)%nat -> exists v, getitem l (Z.of_nat k) = Ok v.
Proof.
  intros Hk. unfold getitem. cbv zeta.
  assert ((Z.of_nat k <? 0)%Z = false) as Hnonneg by (apply Z.ltb_ge; lia).
  rewrite Hnonneg. rewrite Hnonneg, Nat2Z.id. destruct (lookup_lt_is_Some_2 l k Hk) as [v Hv].
  exists v. by rewrite Hv.
Qed.

Lemma range_length (n : Z) : length (range n) = Z.to_nat n.
Proof. unfold range. by rewrite length_fmap, length_seq. Qed.

Lemma range_elem (n i : Z) :
  i ∈ range n -> exists k, i = Z.of_nat k /\ (k < Z.to_nat n)%nat.
Proof.
  unfold range. intros Hi. apply list_elem_of_fmap in Hi as (k & -> & Hk).
  exists k. split; [reflexivity|]. apply elem_of_seq in Hk. lia.
Qed.

Lemma trend_den_total (x : list R) (x_mean : R) (n : Z) :
  length x = Z.to_nat n -> exists den, trend_den x x_mean n = Ok den.
Proof.
  intros Hx. unfold trend_den.
  destruct (for_each_total
              (fun i => xi ← getitem x i; Ok ((xi - x_mean) ^ 2)) (range n))
    as [terms Hterms].
  - apply Forall_forall. intros i Hi.
    destruct (range_elem n i Hi) as (k & -> & Hk).
    destruct (getitem_in_range x k) as [xi Hxi]; [lia|].
    eexists. rewrite Hxi. reflexivity.
  - eexists. rewrite Hterms. reflexivity.
Qed.

Lemma trend_num_total (x values : list R) (x_mean y_mean : R) (n : Z) :
  length x = Z.to_nat n -> length values = Z.to_nat n ->
  exists num, trend_num x values x_mean y_mean n = Ok num.
Proof.
  intros Hx Hv. unfold trend_num.
  destruct (for_each_total
              (fun i => xi ← getitem x i; vi ← getitem values i;
                        Ok ((xi - x_mean) * (vi - y_mean))) (range n))
    as [terms Hterms].
  - apply Forall_forall. intros i Hi.
    destruct (range_elem n i Hi) as (k & -> & Hk).
    destruct (getitem_in_range x k) as [xi Hxi]; [lia|].
    destruct (getitem_in_range values k) as [vi Hvi]; [lia|].
    eexists. rewrite Hxi. cbn [mbind res_bind rbind]. rewrite Hvi. reflexivity.
  - eexists. rewrite Hterms. reflexivity.
Qed.

Lemma trend_ratio_total (num den : R) : exists t, trend_ratio num den = Ok t.
Proof.
  unfold trend_ratio. destruct (Req_dec_T den 0); [by exists 0|].
  eexists. by apply truediv_ok.
Qed.

Lemma trend_ratio_zero_den (num : R) : trend_ratio num 0 = Ok 0.
Proof. unfold trend_ratio. destruct (Req_dec_T 0 0); [reflexivity | congruence]. Qed.

Lemma calculate_trend_short (values : list R) :
  (len values < 2)%Z -> calculate_trend values = Ok 0.
Proof.
  intros Hn. unfold calculate_trend. apply Z.ltb_lt in Hn. by rewrite Hn.
Qed.

(** The slope computed for two or more values, in terms of the code's own
    intermediate results. *)
Lemma calculate_trend_long (values : list R) :
  (2 <= len values)%Z ->
  exists x_mean y_mean num den,
    calculate_mean (IZR <$> range (len values)) = Ok x_mean /\
    calculate_mean values = Ok y_mean /\
    trend_num (IZR <$> range (len values)) values x_mean y_mean (len values)
      = Ok num /\
    trend_den (IZR <$> range (len values)) x_mean (len values) = Ok den /\
    calculate_trend values = trend_ratio num den.
Proof.
  intros Hn. set (n := len values) in *. set (x := IZR <$> range n).
  assert (length x = Z.to_nat n) as Hx
    by (subst x; by rewrite length_fmap, range_length).
  assert (length values = Z.to_nat n) as Hv
    by (subst n; unfold len; by rewrite Nat2Z.id).
  destruct (calculate_mean_total x) as [x_mean Hxm].
  destruct (calculate_mean_total values) as [y_mean Hym].
  destruct (trend_num_total x values x_mean y_mean n Hx Hv) as [num Hnum].
  destruct (trend_den_total x x_mean n Hx) as [den Hden].
  exists x_mean, y_mean, num, den. repeat (split; [assumption|]).
  unfold calculate_trend. fold n. fold x.
  destruct (Z.ltb_spec n 2) as [?|_]; [lia|].
  rewrite Hxm. cbn [mbind res_bind rbind]. rewrite Hym. cbn [mbind res_bind rbind].
  rewrite Hnum. cbn [mbind res_bind rbind]. rewrite Hden. reflexivity.
Qed.

Lemma calculate_trend_total (values : list R) :
  exists t, calculate_trend values = Ok t.
Proof.
  destruct (Z.lt_ge_cases (len values) 2) as [Hn|Hn].
  - exists 0. by apply calculate_trend_short.
  - destruct (calculate_trend_long values Hn) as (? & ? & num & den & _ & _ & _ & _ & ->).
    apply trend_ratio_total.
Qed.

(** C8: the zero sentinels of the descriptive statistics: the mean of the
    empty sequence is 0; the standard deviation and the trend of a sequence
    shorter than 2 are 0; and the trend is 0 whenever the denominator the
    code computes (the sum of squared index deviations) is exactly 0. *)
Theorem degenerate_statistics_are_zero :
  calculate_mean [] = Ok 0 /\
  (forall values : list R, (length values < 2)%nat -> calculate_std values = Ok 0) /\
  (forall values : list R, (length values < 2)%nat -> calculate_trend values = Ok 0) /\
  (forall num : R, trend_ratio num 0 = Ok 0) /\
  (forall (values : list R) (x_mean : R),
      calculate_mean (IZR <$> range (len values)) = Ok x_mean ->
      trend_den (IZR <$> range (len values)) x_mean (len values) = Ok 0 ->
      calculate_trend values = Ok 0).
Proof.
  split; [reflexivity|].
  split; [intros values Hn; apply calculate_std_short; unfold len; lia|].
  split; [intros values Hn; apply calculate_trend_short; unfold len; lia|].
  split; [apply trend_ratio_zero_den|].
  intros values x_mean Hxm Hden.
  destruct (Z.lt_ge_cases (len values) 2) as [Hn|Hn].
  - by apply calculate_trend_short.
  - destruct (calculate_trend_long values Hn)
      as (x_mean' & y_mean & num & den & Hxm' & _ & _ & Hden' & ->).
    assert (x_mean' = x_mean) as -> by congruence.
    assert (den = 0) as -> by congruence.
    apply trend_ratio_zero_den.
Qed.

Lemma degenerate_statistics_are_zero_witness :
  calculate_std [5] = Ok 0 /\ calculate_trend [5] = Ok 0 /\
  calculate_trend [] = Ok 0.
Proof.
  destruct degenerate_statistics_are_zero as (_ & Hstd & Htrend & _ & Hden).
  split; [apply Hstd; simpl; lia|].
  split; [apply Htrend; simpl; lia|].
  apply (Hden [] 0); reflexivity.
Defined.

(** ** The yearly aggregator *)


Lemma if_nonempty_spec (l : list R) (f : list R -> res R) :
  (l <> [] -> exists v, f l = Ok v) ->
  exists o, if_nonempty l f = Ok o /\ optional_aggregate l f o.
Proof.
  intros Hf. destruct l as [|a l].
  - exists None. split; [reflexivity|]. split; [done | congruence].
  - destruct Hf as [v Hv]; [discriminate|].
    exists (Some v). unfold if_nonempty. rewrite Hv.
    split; [reflexivity|]. split; [discriminate|]. intros _. by exists v.
Qed.

Lemma min_nonempty (l : list R) : l <> [] -> exists m, min l = Ok m.
Proof. destruct l; [congruence|]. intros _. eexists. reflexivity. Qed.

Lemma valid_nonneg_elem (series : list (option R)) (v : R) :
  v ∈ valid_nonneg series <-> Some v ∈ series /\ 0 <= v.
Proof.
  unfold valid_nonneg. rewrite list_elem_of_omap. split.
  - intros ([r|] & Hin & Hv); [|discriminate].
    destruct (Rge_dec r 0); [|discriminate]. injection Hv as ->.
    split; [assumption | lra].
  - intros [Hin Hv]. exists (Some v). split; [assumption|].
    destruct (Rge_dec v 0); [reflexivity | lra].
Qed.

Lemma valid_present_elem (series : list (option R)) (v : R) :
  v ∈ valid_present series <-> Some v ∈ series.
Proof.
  unfold valid_present. rewrite list_elem_of_omap. split.
  - by intros (o & Hin & ->).
  - intros Hin. by exists (Some v).
Qed.

(** C9: the aggregator returns [None] exactly when no precipitation value
    is present and non-negative.  Otherwise it returns a summary whose
    [amdp] is the maximum, [totalPrecip] the sum and [dataPoints] the number
    of the valid precipitation values; each temperature and wind aggregate
    is [None] when its own valid subset is empty and computed from that
    subset otherwise, whatever the other variables hold. *)
Theorem yearly_summary_contract
    (daily : gmap string (list (option R))) (year : Z) :
  let valid_precip := valid_nonneg (dict_get daily "precipitation_sum") in
  let valid_tmax := valid_present (dict_get daily "temperature_2m_max") in
  let valid_tmin := valid_present (dict_get daily "temperature_2m_min") in
  let valid_tmean := valid_present (dict_get daily "temperature_2m_mean") in
  let valid_wind := valid_present (dict_get daily "windspeed_10m_max") in
  (forall v : R,
      v ∈ valid_precip <->
      Some v ∈ dict_get daily "precipitation_sum" /\ 0 <= v) /\
  (process_yearly_data daily year = Ok None <-> valid_precip = []) /\
  (valid_precip <> [] ->
   exists s,
     process_yearly_data daily year = Ok (Some s) /\
     Summary.year s = year /\
     max valid_precip = Ok (Summary.amdp s) /\
     (Summary.amdp s ∈ valid_precip) /\
     Forall (fun v => v <= Summary.amdp s) valid_precip /\
     Summary.totalPrecip s = sum valid_precip /\
     Summary.dataPoints s = len valid_precip /\
     optional_aggregate valid_tmean calculate_mean (Summary.avgTemp s) /\
     optional_aggregate valid_tmax max (Summary.maxTemp s) /\
     optional_aggregate valid_tmin min (Summary.minTemp s) /\
     optional_aggregate valid_wind calculate_mean (Summary.avgWind s)).
Proof.
  intros valid_precip valid_tmax valid_tmin valid_tmean valid_wind.
  split; [intros v; apply valid_nonneg_elem|].
  assert (valid_precip <> [] ->
    exists s,
      process_yearly_data daily year = Ok (Some s) /\
      Summary.year s = year /\
      max valid_precip = Ok (Summary.amdp s) /\
      (Summary.amdp s ∈ valid_precip) /\
      Forall (fun v => v <= Summary.amdp s) valid_precip /\
      Summary.totalPrecip s = sum valid_precip /\
      Summary.dataPoints s = len valid_precip /\
      optional_aggregate valid_tmean calculate_mean (Summary.avgTemp s) /\
      optional_aggregate valid_tmax max (Summary.maxTemp s) /\
      optional_aggregate valid_tmin min (Summary.minTemp s) /\
      optional_aggregate valid_wind calculate_mean (Summary.avgWind s))
    as Hsome.
  { intros Hne. unfold process_yearly_data.
    fold valid_precip valid_tmax valid_tmin valid_tmean valid_wind.
    clearbody valid_precip valid_tmax valid_tmin valid_tmean valid_wind.
    destruct (max_nonempty valid_precip Hne) as [amdp Hamdp].
    destruct (max_spec _ _ Hamdp) as [Hin Hub].
    destruct (if_nonempty_spec valid_tmean calculate_mean)
      as (avg_temp & Hat & Hat'); [intros _; apply calculate_mean_total|].
    destruct (if_nonempty_spec valid_tmax max)
      as (max_temp & Hxt & Hxt'); [apply max_nonempty|].
    destruct (if_nonempty_spec valid_tmin min)
      as (min_temp & Hnt & Hnt'); [apply min_nonempty|].
    destruct (if_nonempty_spec valid_wind calculate_mean)
      as (avg_wind & Haw & Haw'); [intros _; apply calculate_mean_total|].
    exists (Summary.mk year amdp (sum valid_precip) avg_temp max_temp min_temp
                       avg_wind (len valid_precip)).
    split.
    - destruct valid_precip as [|p ps]; [congruence|].
      rewrite Hamdp. cbn [mbind res_bind rbind].
      rewrite Hat. cbn [mbind res_bind rbind].
      rewrite Hxt. cbn [mbind res_bind rbind].
      rewrite Hnt. cbn [mbind res_bind rbind].
      rewrite Haw. cbn [mbind res_bind rbind]. reflexivity.
    - simpl. by repeat (split; [done|]). }
  split; [|assumption].
  split.
  - intros Hnone. destruct valid_precip as [|p ps] eqn:Hvp; [reflexivity|].
    destruct Hsome as (s & Hs & _); [discriminate|]. congruence.
  - intros Hnil. unfold process_yearly_data. fold valid_precip. by rewrite Hnil.
Qed.

Lemma yearly_summary_contract_witness :
  process_yearly_data
    {[ "precipitation_sum" := [Some (-1); None; Some 3; Some 8] ]} 2020 <> Ok None.
Proof.
  destruct (yearly_summary_contract
              {[ "precipitation_sum" := [Some (-1); None; Some 3; Some 8] ]} 2020)
    as (_ & _ & Hsome).
  destruct Hsome as (s & Hs & _).
  - unfold dict_get. rewrite lookup_singleton_eq. simpl.
    destruct (Rge_dec (-1) 0); [lra|]. destruct (Rge_dec 3 0); [|lra].
    discriminate.
  - rewrite Hs. discriminate.
Defined.

(** ** The hydrological report *)

Lemma new_list_run (xs : list R) (h : heap) :
  new_list xs h = (Ok (fresh (dom h)), <[fresh (dom h) := xs]> h).
Proof. reflexivity. Qed.

(** On a non-empty sequence of summaries the calculator returns a report;
    its estimator fields are those of [calculate_pmp_with_eva] on the AMDP
    series. *)
Lemma report_run (h : heap) (annual_data : list Summary.t) (climate_factor : R) :
  annual_data <> [] ->
  exists rep fr rest_xs h',
    calculate_hydrological_parameters annual_data climate_factor h = (Ok rep, h') /\
    body_post (Summary.amdp <$> annual_data) rest_xs fr /\
    Report.meanAMDP rep = Locals.mean fr /\
    Report.stdAMDP rep = Locals.std fr /\
    Report.pmpUnadjusted rep = Locals.pmp fr /\
    Report.pmp rep =
      (if Rgt_dec climate_factor 0
       then Locals.pmp fr * (1 + climate_factor) else Locals.pmp fr) /\
    Report.frequencyFactor rep = Locals.frequency_factor fr /\
    Report.climateAdjustment rep = climate_factor /\
    Report.dataPoints rep = len annual_data /\
    Report.yearsCovered rep = len annual_data.
Proof.
  intros Hne. set (xs := Summary.amdp <$> annual_data).
  assert (xs <> []) as Hxs by (subst xs; by destruct annual_data).
  set (l0 := fresh (dom h)). set (h1 := <[l0 := xs]> h).
  assert (h1 !! l0 = Some xs) as Hl0 by apply lookup_insert_eq.
  destruct (eva_run h1 l0 xs Hl0 Hxs) as (fr & rest_xs & _ & Hrun & _ & Hpost).
  set (h2 := <[fresh (dom h1) := rest_xs]> h1) in *.
  assert (h2 !! l0 = Some xs) as Hl0'.
  { subst h2. rewrite lookup_insert_ne; [assumption|].
    by apply (fresh_loc_ne h1 l0 xs). }
  destruct (calculate_mean_total (Summary.totalPrecip <$> annual_data))
    as [mean_annual_precip Hmap].
  destruct (calculate_trend_total xs) as [trend Htrend].
  assert (exists variability,
    (if Req_dec_T (Locals.mean fr) 0 then mret 0
     else q ← lift (truediv (Locals.std fr) (Locals.mean fr)); mret (q * 100)) h2
    = (Ok variability, h2)) as [variability Hvar].
  { destruct (Req_dec_T (Locals.mean fr) 0); [by exists 0|].
    eexists. rewrite (bind_run _ _ h2 h2 (Locals.std fr / Locals.mean fr));
      [reflexivity|]. by rewrite lift_run, truediv_ok. }
  eexists _, fr, rest_xs, h2. split.
  - unfold calculate_hydrological_parameters. fold xs.
    rewrite (bind_run _ _ h h1 l0 (new_list_run xs h)).
    rewrite (bind_run _ _ h1 h1 (Locals.mean fr))
      by (by rewrite (call_run _ _ _ xs), (post_mean _ _ _ Hpost)).
    rewrite (bind_run _ _ h1 h1 (Locals.std fr))
      by (by rewrite (call_run _ _ _ xs), (post_std _ _ _ Hpost)).
    rewrite (bind_run _ _ h1 h1 mean_annual_precip)
      by (by rewrite lift_run, Hmap).
    rewrite (bind_run _ _ h1 h2 _ Hrun).
    rewrite (bind_run _ _ h2 h2 trend)
      by (by rewrite (call_run _ _ _ xs), Htrend).
    rewrite (bind_run _ _ h2 h2 variability Hvar).
    reflexivity.
  - simpl. by repeat (split; [done|]).
Qed.

Lemma mean_positive (xs : list R) (m : R) :
  xs <> [] -> Forall (fun x => 0 < x) xs -> calculate_mean xs = Ok m -> 0 < m.
Proof.
  intros Hne Hpos Hm. rewrite calculate_mean_nonempty in Hm by assumption.
  injection Hm as <-. pose proof (IZR_len_pos xs Hne).
  apply Rdiv_lt_0_compat; [|assumption].
  destruct Hpos as [|x xs Hx Hpos]; [congruence|].
  rewrite sum_cons.
  assert (0 <= sum xs)
    by (apply sum_nonneg; eapply Forall_impl; [exact Hpos|]; simpl; intros; lra).
  lra.
Qed.

Lemma pmp_ge_mean (xs rest_xs : list R) (fr : Locals.t) :
  body_post xs rest_xs fr -> Locals.mean fr <= Locals.pmp fr.
Proof.
  intros Hpost. rewrite (post_pmp _ _ _ Hpost).
  pose proof (frequency_factor_bounds _ _ _ Hpost).
  pose proof (post_std_nonneg _ _ _ Hpost). nra.
Qed.


(** The aggregator produces [dry_year] from a year whose daily values are
    all 0. *)
Lemma dry_year_aggregated :
  process_yearly_data {[ "precipitation_sum" := [Some 0; Some 0; Some 0] ]} 2020
  = Ok (Some dry_year).
Proof.
  unfold process_yearly_data, dict_get.
  rewrite lookup_singleton_eq.
  do 4 (rewrite lookup_singleton_ne by discriminate).
  cbn [default from_option Datatypes.id valid_present omap list_omap].
  assert (valid_nonneg [Some 0; Some 0; Some 0] = [0; 0; 0]) as ->.
  { unfold valid_nonneg. cbn [omap list_omap].
    destruct (Rge_dec 0 0); [reflexivity | lra]. }
  unfold max. cbn [foldl]. rewrite !max2_same.
  cbn [mbind res_bind rbind if_nonempty].
  unfold dry_year. do 2 f_equal. f_equal.
  - rewrite !sum_cons, sum_nil. lra.
Qed.

(** C4 as stated fails: for a dry year the unadjusted [pmp] is 0, and with
    [climateFactor = 0.5 > 0] the adjusted [pmp] is 0 as well, not strictly
    greater. *)
Lemma climate_adjustment_not_strict_at_zero :
  exists rep h',
    calculate_hydrological_parameters [dry_year] 0.5 ∅ = (Ok rep, h') /\
    0.5 > 0 /\
    Report.pmpUnadjusted rep = 0 /\
    Report.pmp rep = 0 /\
    ~ (Report.pmp rep > Report.pmpUnadjusted rep).
Proof.
  destruct (report_run ∅ [dry_year] 0.5)
    as (rep & fr & rest_xs & h' & Hrun & Hpost & _ & _ & Hun & Hadj & _);
    [discriminate|].
  assert (Locals.pmp fr = 0) as Hpmp.
  { rewrite (post_pmp _ _ _ Hpost).
    pose proof (post_mean _ _ _ Hpost) as Hmean.
    pose proof (post_std _ _ _ Hpost) as Hstd.
    rewrite (mean_constant 0) in Hmean by (by repeat constructor).
    rewrite (std_constant 0) in Hstd by (by repeat constructor).
    injection Hmean as <-. injection Hstd as <-. lra. }
  exists rep, h'. split; [assumption|]. split; [lra|].
  rewrite Hun, Hadj, Hpmp. destruct (Rgt_dec 0.5 0); repeat split; lra.
Qed.

(** In exact arithmetic: the adjusted [pmp] is the unadjusted one when
    [climateFactor <= 0] and the unadjusted one times [1 + climateFactor]
    when [climateFactor > 0]; in the latter case it is strictly greater
    provided the unadjusted [pmp] is positive, which holds in particular
    when every AMDP value is positive. *)
Lemma climate_adjustment_exact
    (h : heap) (annual_data : list Summary.t) (climate_factor : R) :
  annual_data <> [] ->
  exists rep h',
    calculate_hydrological_parameters annual_data climate_factor h = (Ok rep, h') /\
    (climate_factor <= 0 -> Report.pmp rep = Report.pmpUnadjusted rep) /\
    (climate_factor > 0 ->
       Report.pmp rep = Report.pmpUnadjusted rep * (1 + climate_factor)) /\
    (climate_factor > 0 -> 0 < Report.pmpUnadjusted rep ->
       Report.pmp rep > Report.pmpUnadjusted rep) /\
    (Forall (fun s => 0 < Summary.amdp s) annual_data ->
       0 < Report.pmpUnadjusted rep).
Proof.
  intros Hne.
  destruct (report_run h annual_data climate_factor Hne)
    as (rep & fr & rest_xs & h' & Hrun & Hpost & _ & _ & Hun & Hadj & _).
  exists rep, h'. split; [assumption|]. rewrite Hun, Hadj.
  destruct (Rgt_dec climate_factor 0) as [Hcf|Hcf].
  - split; [lra|]. split; [done|]. split; [intros _ Hpos; nra|].
    intros Hall. pose proof (pmp_ge_mean _ _ _ Hpost).
    assert (0 < Locals.mean fr); [|lra].
    apply (mean_positive (Summary.amdp <$> annual_data)).
    + by destruct annual_data.
    + by apply Forall_fmap.
    + apply (post_mean _ _ _ Hpost).
  - split; [done|]. split; [lra|]. split; [lra|].
    intros Hall. pose proof (pmp_ge_mean _ _ _ Hpost).
    assert (0 < Locals.mean fr); [|lra].
    apply (mean_positive (Summary.amdp <$> annual_data)).
    + by destruct annual_data.
    + by apply Forall_fmap.
    + apply (post_mean _ _ _ Hpost).
Qed.

(** ** The worked example of the specification: AMDP = [40, 55, 30] *)

Lemma sqrt_between (a lo hi : R) :
  0 <= lo -> lo * lo < a -> a < hi * hi -> 0 <= hi -> lo < sqrt a < hi.
Proof.
  intros Hlo Hla Hah Hhi.
  assert (0 <= a) by nra. split.
  - apply Rle_lt_trans with (sqrt (lo * lo)); [rewrite sqrt_square; lra|].
    apply sqrt_lt_1; nra.
  - apply Rlt_le_trans with (sqrt (hi * hi)); [|rewrite sqrt_square; lra].
    apply sqrt_lt_1; nra.
Qed.

Lemma round_half_even_up (y : R) (z : Z) :
  IZR z + 1 / 2 < y < IZR z + 1 -> round_half_even y = (z + 1)%Z.
Proof.
  intros Hy. unfold round_half_even.
  rewrite (Zfloor_eq z y) by lra.
  destruct (Rlt_dec _ _); [lra|]. destruct (Rlt_dec _ _); [reflexivity | lra].
Qed.

(** With three yearly maxima 40, 55 and 30 the estimator finds
    [Xmax = 55], [rest = [40, 30]], [Xmean = 35], [S = sqrt 50] (about 7.07)
    and the frequency factor 2.83. *)
Lemma worked_example (h : heap) (l : loc) :
  h !! l = Some [40; 55; 30] ->
  exists fr h',
    calculate_pmp_with_eva_body l h = (Ok fr, h') /\
    h' !! Locals.rest fr = Some [40; 30] /\
    Locals.mean fr = 125 / 3 /\
    Locals.Xmax fr = 55 /\
    Locals.Xmean fr = 35 /\
    Locals.S fr = sqrt 50 /\
    Locals.frequency_factor fr = 2.83.
Proof.
  intros Hl.
  destruct (eva_run h l _ Hl) as (fr & rest_xs & Hbody & _ & Hrest & Hpost);
    [discriminate|].
  pose proof eps_pos as Heps. unfold eps in Heps.
  (* mean and std of the full series *)
  pose proof (post_mean _ _ _ Hpost) as Hmean.
  rewrite calculate_mean_nonempty in Hmean by discriminate.
  rewrite !sum_cons, sum_nil in Hmean.
  change (IZR (len [40; 55; 30])) with 3 in Hmean.
  injection Hmean as Hmean.
  assert (Locals.mean fr = 125 / 3) as Hmean' by lra. clear Hmean.
  pose proof (post_std _ _ _ Hpost) as Hstd.
  rewrite (calculate_std_long _ (125 / 3)) in Hstd.
  2:{ unfold len. simpl. lia. }
  2:{ rewrite calculate_mean_nonempty by discriminate.
      rewrite !sum_cons, sum_nil.
      change (IZR (len [40; 55; 30])) with 3. f_equal. lra. }
  cbn [fmap list_fmap] in Hstd. rewrite !sum_cons, sum_nil in Hstd.
  change (IZR (len [40; 55; 30] - 1)) with 2 in Hstd.
  injection Hstd as Hstd.
  assert (12.58 < Locals.std fr < 12.59) as Hstd'.
  { rewrite <- Hstd. apply sqrt_between; lra. }
  clear Hstd.
  (* the maximum and the rest *)
  pose proof (post_Xmax _ _ _ Hpost) as HXmax.
  assert (max [40; 55; 30] = Ok 55) as HX.
  { unfold max. cbn [foldl]. unfold max2.
    repeat (destruct (Rlt_dec _ _); try lra). reflexivity. }
  rewrite HX in HXmax. injection HXmax as HXmax.
  pose proof (post_rest _ _ _ Hpost) as Hrm. rewrite <- HXmax in Hrm.
  simpl in Hrm. destruct (Req_dec_T 40 55) as [|_]; [lra|].
  destruct (Req_dec_T 55 55) as [_|]; [|lra]. injection Hrm as Hrm.
  subst rest_xs.
  (* the leave-one-out statistics *)
  destruct (post_leave_one_out _ _ _ Hpost) as (HXmean & s & Hs & _ & HS);
    [discriminate|].
  rewrite calculate_mean_nonempty in HXmean by discriminate.
  rewrite !sum_cons, sum_nil in HXmean.
  change (IZR (len [40; 30])) with 2 in HXmean.
  injection HXmean as HXmean.
  assert (Locals.Xmean fr = 35) as HXmean' by lra. clear HXmean.
  rewrite (calculate_std_long _ 35) in Hs.
  2:{ unfold len. simpl. lia. }
  2:{ rewrite calculate_mean_nonempty by discriminate.
      rewrite !sum_cons, sum_nil.
      change (IZR (len [40; 30])) with 2. f_equal. lra. }
  cbn [fmap list_fmap] in Hs. rewrite !sum_cons, sum_nil in Hs.
  change (IZR (len [40; 30] - 1)) with 1 in Hs.
  injection Hs as Hs. rewrite Rdiv_1_r in Hs.
  match type of Hs with sqrt ?e = _ => replace e with 50 in Hs by lra end.
  assert (7.071 < sqrt 50 < 7.072) as Hsqrt by (apply sqrt_between; lra).
  assert (Locals.S fr = sqrt 50) as HS'.
  { rewrite HS, <- Hs. unfold max2, eps.
    destruct (Rlt_dec _ _); [lra | reflexivity]. }
  (* the two candidate factors *)
  pose proof (post_km_a _ _ _ Hpost) as Hka.
  rewrite <- HXmax, HXmean', HS' in Hka.
  assert (2.828 < Locals.km_a fr < 2.829) as Hka'.
  { assert (Locals.km_a fr * sqrt 50 = 20) as Hprod by (rewrite Hka; field; lra).
    split; nra. }
  pose proof (post_km_b _ _ _ Hpost) as Hkb.
  rewrite <- HXmax, Hmean' in Hkb.
  assert (max2 (Locals.std fr) eps = Locals.std fr) as Hd.
  { unfold max2, eps. destruct (Rlt_dec _ _); [lra | reflexivity]. }
  rewrite Hd in Hkb.
  assert (Locals.km_b fr < 2) as Hkb'.
  { assert (Locals.km_b fr * Locals.std fr = 55 - 125 / 3) as Hprod
      by (rewrite Hkb; field; lra).
    nra. }
  (* clamping and rounding *)
  pose proof (post_raw _ _ _ Hpost) as Hraw.
  assert (Locals.frequency_factor_raw fr = Locals.km_a fr) as Hraw'.
  { rewrite Hraw. unfold max2. destruct (Rlt_dec _ _); [lra | reflexivity]. }
  pose proof (post_ff _ _ _ Hpost) as Hff. rewrite Hraw' in Hff.
  assert (clamp (Locals.km_a fr) = Locals.km_a fr) as Hclamp.
  { unfold clamp, min2, max2.
    destruct (Rlt_dec (Locals.km_a fr) 25); [|lra].
    destruct (Rlt_dec 1 (Locals.km_a fr)); [reflexivity | lra]. }
  rewrite Hclamp in Hff. unfold round2 in Hff.
  rewrite (round_half_even_up _ 282) in Hff by lra.
  exists fr, (<[fresh (dom h) := [40; 30]]> h).
  split; [assumption|].
  split; [rewrite Hrest; apply lookup_insert_eq|].
  split; [assumption|]. split; [by symmetry|].
  split; [assumption|]. split; [assumption|].
  rewrite Hff. change (282 + 1)%Z with 283%Z. lra.
Qed.

(** ** Binary64 runs *)

(** The worked example of the specification on binary64: the frequency
    factor is 2.83 and [pmp] about 77.28, as the specification reports. *)
Lemma binary64_worked_example :
  B64.calculate_pmp_with_eva [40; 55; 30]%float
  = Ok (B64.mk_eva 77.276719086360373 2.83 63.037649204127504
                   91.515788968593242)%float.
Proof. vm_compute. reflexivity. Qed.

(** C5 as stated fails on binary64: on the two positive, finite values
    1e200 and 3e200 the deviation from the mean is 1e200, and
    [(v - mean) ** 2] raises [OverflowError]. *)
Lemma estimator_overflows :
  Forall (fun x => PrimFloat.ltb 0 x = true /\ PrimFloat.is_finite x = true)
         [1e200; 3e200]%float /\
  B64.calculate_mean [1e200; 3e200]%float = Ok 2e200%float /\
  B64.pow2 (PrimFloat.sub 1e200 2e200) = Raise OverflowError /\
  B64.calculate_std [1e200; 3e200]%float = Raise OverflowError /\
  B64.calculate_pmp_with_eva [1e200; 3e200]%float = Raise OverflowError.
Proof.
  split; [repeat constructor|]. repeat split; vm_compute; reflexivity.
Qed.

(** C6 as stated fails on binary64: the three values 0.1 sum to
    0.30000000000000004, so the mean is 0.10000000000000002, above every
    value; the standard deviation is not 0 and [pmp] is not 0.1.  The
    frequency factor is 1.0 all the same. *)
Lemma constant_series_rounds :
  B64.calculate_mean [0.1; 0.1; 0.1]%float = Ok 0.10000000000000002%float /\
  PrimFloat.ltb 0.1 0.10000000000000002 = true /\
  exists s r,
    B64.calculate_std [0.1; 0.1; 0.1]%float = Ok s /\
    PrimFloat.eqb s 0 = false /\
    B64.calculate_pmp_with_eva [0.1; 0.1; 0.1]%float = Ok r /\
    PrimFloat.eqb (B64.pmp r) 0.1 = false /\
    PrimFloat.eqb (B64.frequencyFactor r) 1 = true.
Proof.
  split; [vm_compute; reflexivity|]. split; [reflexivity|].
  eexists _, _. split; [vm_compute; reflexivity|].
  split; [vm_compute; reflexivity|].
  split; [vm_compute; reflexivity|].
  split; vm_compute; reflexivity.
Qed.

(** On binary64 a constant series whose sum is exact behaves as in exact
    arithmetic. *)
Lemma constant_series_exact_sum :
  B64.calculate_std [50; 50; 50]%float = Ok 0%float /\
  B64.calculate_pmp_with_eva [50; 50; 50]%float = Ok (B64.mk_eva 50 1 50 50)%float.
Proof. split; vm_compute; reflexivity. Qed.

(** The report for two years with the maxima 40 and 55 and the climate
    factor 1e-17, on binary64. *)
Lemma binary64_report_example :
  B64.calculate_hydrological_parameters
    [B64.mk_summary 40 900; B64.mk_summary 55 950]%float 1e-17%float
  = Ok (B64.mk_report 47.5 10.606601717798213 925 312.6650429449553
                      312.6650429449553 25 1e-17 15 22.329687826943605
                      2 2)%float.
Proof. vm_compute. reflexivity. Qed.


(** C5, amended: in exact arithmetic the estimator returns a result on
    every non-empty series without raising: the divisors [S] and
    [max(std, eps)] are at least [eps = 1e-6 > 0], the divisor of the
    standard error is positive (and is 1 when [n] is not positive), a zero
    standard deviation is replaced by [eps] as divisor, and the series of
    length 1 takes the fallback branch [Xmean = mean], [S = max(std, eps)].
    On binary64 [(v - mean) ** 2] can raise [OverflowError], as it does on
    the series 1e200, 3e200. *)
Theorem estimator_never_raises :
  (forall (h : heap) (l : loc) (xs : list R),
      h !! l = Some xs -> xs <> [] ->
      exists r fr h',
        calculate_pmp_with_eva l h = (Ok r, h') /\
        calculate_pmp_with_eva_body l h = (Ok fr, h') /\
        0 < eps /\ eps = 1 / 1000000 /\
        eps <= Locals.S fr /\
        eps <= max2 (Locals.std fr) eps /\
        (exists d, se_divisor (Locals.n fr) = Ok d /\ 0 < d) /\
        (forall n, exists d, se_divisor n = Ok d /\ 0 < d) /\
        se_divisor 0 = Ok 1 /\
        (Locals.std fr = 0 -> max2 (Locals.std fr) eps = eps) /\
        (length xs = 1%nat ->
           Locals.Xmean fr = Locals.mean fr /\
           Locals.S fr = max2 (Locals.std fr) eps)) /\
  B64.calculate_std [1e200; 3e200]%float = Raise OverflowError /\
  B64.calculate_pmp_with_eva [1e200; 3e200]%float = Raise OverflowError.
Proof.
  split; [exact estimator_never_raises_exact|].
  split; vm_compute; reflexivity.
Qed.

Lemma estimator_never_raises_witness :
  exists r h',
    calculate_pmp_with_eva 1%positive {[ 1%positive := [7; 7] ]} = (Ok r, h').
Proof.
  destruct (proj1 estimator_never_raises {[ 1%positive := [7; 7] ]} 1%positive [7; 7])
    as (r & _ & h' & Hrun & _).
  - apply lookup_singleton_eq.
  - discriminate.
  - by exists r, h'.
Defined.

(** C6, amended: in exact arithmetic, for a non-empty series whose values
    all equal [c], the sample standard deviation of the series is 0, both
    candidate factors [km_a] and [km_b] are 0, the frequency factor is
    clamped to exactly 1.0 and [pmp] is [c].  On binary64 this is what the
    code returns on three values 50, whose sum is exact; on three values
    0.1 the standard deviation is not 0 and [pmp] is not 0.1, while the
    frequency factor is 1.0 all the same. *)
Theorem constant_series_estimate :
  (forall (h : heap) (l : loc) (xs : list R) (c : R),
      h !! l = Some xs -> xs <> [] -> Forall (fun x => x = c) xs ->
      exists r fr h',
        calculate_pmp_with_eva l h = (Ok r, h') /\
        calculate_pmp_with_eva_body l h = (Ok fr, h') /\
        calculate_std xs = Ok 0 /\
        Locals.std fr = 0 /\
        Locals.km_a fr = 0 /\
        Locals.km_b fr = 0 /\
        EVA.frequencyFactor r = 1 /\
        EVA.pmp r = c) /\
  (B64.calculate_std [50; 50; 50]%float = Ok 0%float /\
   B64.calculate_pmp_with_eva [50; 50; 50]%float
   = Ok (B64.mk_eva 50 1 50 50)%float) /\
  (exists s r,
      B64.calculate_std [0.1; 0.1; 0.1]%float = Ok s /\
      PrimFloat.eqb s 0 = false /\
      B64.calculate_pmp_with_eva [0.1; 0.1; 0.1]%float = Ok r /\
      PrimFloat.eqb (B64.pmp r) 0.1 = false /\
      PrimFloat.eqb (B64.frequencyFactor r) 1 = true).
Proof.
  split; [exact constant_series_estimate_exact|].
  split; [exact constant_series_exact_sum|].
  eexists _, _. split; [vm_compute; reflexivity|].
  split; [vm_compute; reflexivity|].
  split; [vm_compute; reflexivity|].
  split; vm_compute; reflexivity.
Qed.

Lemma constant_series_estimate_witness :
  exists r h',
    calculate_pmp_with_eva 1%positive {[ 1%positive := [12; 12; 12] ]} = (Ok r, h') /\
    EVA.frequencyFactor r = 1 /\ EVA.pmp r = 12.
Proof.
  destruct (proj1 constant_series_estimate {[ 1%positive := [12; 12; 12] ]}
              1%positive [12; 12; 12] 12)
    as (r & _ & h' & Hrun & _ & _ & _ & _ & _ & Hff & Hpmp).
  - apply lookup_singleton_eq.
  - discriminate.
  - by repeat constructor.
  - by exists r, h'.
Defined.

(** The adjustment on binary64: which of the two values the report holds. *)
Lemma binary64_adjustment_rule
    (annual_data : list B64.summary) (climate_factor : B64.float)
    (rep : B64.report) :
  B64.calculate_hydrological_parameters annual_data climate_factor = Ok rep ->
  B64.adjustedPmp rep =
    if PrimFloat.ltb 0 climate_factor
    then PrimFloat.mul (B64.pmpUnadjusted rep) (PrimFloat.add 1 climate_factor)
    else B64.pmpUnadjusted rep.
Proof.
  unfold B64.calculate_hydrological_parameters. intros Hrun.
  destruct (B64.calculate_mean (B64.amdp <$> annual_data)) as [mean_amdp|];
    cbn [mbind res_bind rbind] in Hrun; [|discriminate].
  destruct (B64.calculate_std _) as [std_amdp|];
    cbn [mbind res_bind rbind] in Hrun; [|discriminate].
  destruct (B64.calculate_mean _) as [mean_annual_precip|];
    cbn [mbind res_bind rbind] in Hrun; [|discriminate].
  destruct (B64.calculate_pmp_with_eva _) as [eva_results|];
    cbn [mbind res_bind rbind] in Hrun; [|discriminate].
  destruct (B64.calculate_trend _) as [trend|];
    cbn [mbind res_bind rbind] in Hrun; [|discriminate].
  destruct (PrimFloat.eqb mean_amdp 0).
  - cbn [mbind res_bind rbind] in Hrun. by injection Hrun as <-.
  - destruct (B64.truediv std_amdp mean_amdp) as [q|];
      cbn [mbind res_bind rbind] in Hrun; [|discriminate].
    by injection Hrun as <-.
Qed.

(** With two yearly maxima 40 and 55 and [climateFactor = 1e-17] the
    unadjusted [pmp] is about 312.67 and the adjusted one is the same
    number: [1 + 1e-17] is 1.0 on binary64. *)
Lemma binary64_adjustment_absorbed :
  exists rep,
    B64.calculate_hydrological_parameters
      [B64.mk_summary 40 900; B64.mk_summary 55 950]%float 1e-17%float = Ok rep /\
    PrimFloat.ltb 0 1e-17 = true /\
    PrimFloat.eqb (PrimFloat.add 1 1e-17) 1 = true /\
    PrimFloat.ltb 312 (B64.pmpUnadjusted rep) = true /\
    PrimFloat.eqb (B64.adjustedPmp rep) (B64.pmpUnadjusted rep) = true.
Proof.
  eexists. split; [vm_compute; reflexivity|].
  repeat split; vm_compute; reflexivity.
Qed.

(** C4, amended: the adjusted [pmp] is the unadjusted one when
    [climateFactor] is not positive and the product
    [pmp * (1 + climateFactor)] when it is positive, in exact arithmetic and
    on binary64 alike.  In exact arithmetic the product is strictly greater
    than the unadjusted [pmp] provided that one is positive (as it is when
    every AMDP value is positive).  On binary64 the product is rounded and
    can equal a positive unadjusted [pmp]: it does for [climateFactor =
    1e-17]. *)
Theorem climate_adjustment :
  (forall (h : heap) (annual_data : list Summary.t) (climate_factor : R),
      annual_data <> [] ->
      exists rep h',
        calculate_hydrological_parameters annual_data climate_factor h
          = (Ok rep, h') /\
        (climate_factor <= 0 -> Report.pmp rep = Report.pmpUnadjusted rep) /\
        (climate_factor > 0 ->
           Report.pmp rep = Report.pmpUnadjusted rep * (1 + climate_factor)) /\
        (climate_factor > 0 -> 0 < Report.pmpUnadjusted rep ->
           Report.pmp rep > Report.pmpUnadjusted rep) /\
        (Forall (fun s => 0 < Summary.amdp s) annual_data ->
           0 < Report.pmpUnadjusted rep)) /\
  (forall (annual_data : list B64.summary) (climate_factor : B64.float)
          (rep : B64.report),
      B64.calculate_hydrological_parameters annual_data climate_factor = Ok rep ->
      B64.adjustedPmp rep =
        if PrimFloat.ltb 0 climate_factor
        then PrimFloat.mul (B64.pmpUnadjusted rep) (PrimFloat.add 1 climate_factor)
        else B64.pmpUnadjusted rep) /\
  (exists rep,
      B64.calculate_hydrological_parameters
        [B64.mk_summary 40 900; B64.mk_summary 55 950]%float 1e-17%float = Ok rep /\
      PrimFloat.ltb 0 1e-17 = true /\
      PrimFloat.eqb (PrimFloat.add 1 1e-17) 1 = true /\
      PrimFloat.ltb 312 (B64.pmpUnadjusted rep) = true /\
      PrimFloat.eqb (B64.adjustedPmp rep) (B64.pmpUnadjusted rep) = true).
Proof.
  split; [exact climate_adjustment_exact|].
  split; [exact binary64_adjustment_rule | exact binary64_adjustment_absorbed].
Qed.

Lemma climate_adjustment_witness :
  exists rep h',
    calculate_hydrological_parameters
      [Summary.mk 2020 40 900 None None None None 365;
       Summary.mk 2021 55 950 None None None None 365] 0.1 ∅ = (Ok rep, h') /\
    Report.pmp rep > Report.pmpUnadjusted rep.
Proof.
  destruct (proj1 climate_adjustment ∅
              [Summary.mk 2020 40 900 None None None None 365;
               Summary.mk 2021 55 950 None None None None 365] 0.1)
    as (rep & h' & Hrun & _ & _ & Hgt & Hpos); [discriminate|].
  exists rep, h'. split; [assumption|].
  apply Hgt; [lra|]. apply Hpos. repeat constructor; simpl; lra.
Defined.

(** * Further properties of the code *)

(** ** Mean and standard deviation *)

Lemma sum_le_bound (xs : list R) (b : R) :
  Forall (fun x => x <= b) xs -> sum xs <= IZR (len xs) * b.
Proof.
  induction 1 as [|x xs Hx _ IH].
  - unfold sum, len. simpl. change (Z.of_nat 0) with 0%Z. lra.
  - rewrite sum_cons. unfold len in *. simpl length.
    rewrite Nat2Z.inj_succ, succ_IZR. lra.
Qed.

Lemma sum_ge_bound (xs : list R) (b : R) :
  Forall (fun x => b <= x) xs -> IZR (len xs) * b <= sum xs.
Proof.
  induction 1 as [|x xs Hx _ IH].
  - unfold sum, len. simpl. change (Z.of_nat 0) with 0%Z. lra.
  - rewrite sum_cons. unfold len in *. simpl length.
    rewrite Nat2Z.inj_succ, succ_IZR. lra.
Qed.

(** X1: in exact arithmetic the mean of a non-empty sequence lies between
    its minimum and its maximum. *)
Theorem mean_between_min_and_max (xs : list R) :
  xs <> [] ->
  exists lo m hi,
    min xs = Ok lo /\ calculate_mean xs = Ok m /\ max xs = Ok hi /\
    lo <= m <= hi.
Proof.
  intros Hne.
  destruct (min_nonempty xs Hne) as [lo Hlo].
  destruct (max_nonempty xs Hne) as [hi Hhi].
  exists lo, (sum xs / IZR (len xs)), hi.
  split; [assumption|]. split; [by apply calculate_mean_nonempty|].
  split; [assumption|].
  destruct (min_spec _ _ Hlo) as [_ Hlb]. destruct (max_spec _ _ Hhi) as [_ Hub].
  pose proof (sum_le_bound xs hi Hub). pose proof (sum_ge_bound xs lo Hlb).
  pose proof (IZR_len_pos xs Hne) as Hn.
  assert (sum xs / IZR (len xs) * IZR (len xs) = sum xs) as Hprod
    by (field; lra).
  split; nra.
Qed.

Lemma mean_between_min_and_max_witness :
  exists lo m hi,
    min [3; 9; 6] = Ok lo /\ calculate_mean [3; 9; 6] = Ok m /\
    max [3; 9; 6] = Ok hi /\ lo <= m <= hi.
Proof. apply mean_between_min_and_max. discriminate. Defined.

Lemma sum_nonneg_zero (xs : list R) :
  Forall (fun x => 0 <= x) xs -> sum xs = 0 -> Forall (fun x => x = 0) xs.
Proof.
  induction 1 as [|x xs Hx Hxs IH]; intros Hsum; [constructor|].
  rewrite sum_cons in Hsum. pose proof (sum_nonneg xs Hxs).
  constructor; [lra | apply IH; lra].
Qed.

(** X2: for two or more values the sample standard deviation is 0 exactly
    when all values are equal; it is never negative. *)
Theorem std_zero_iff_constant (xs : list R) :
  (2 <= len xs)%Z ->
  (calculate_std xs = Ok 0 <-> exists c, Forall (fun x => x = c) xs) /\
  (forall s, calculate_std xs = Ok s -> 0 <= s).
Proof.
  intros Hn. split; [split|].
  - intros Hstd. destruct (calculate_mean_total xs) as [m Hm].
    rewrite (calculate_std_long xs m Hn Hm) in Hstd. injection Hstd as Hstd.
    assert (0 < IZR (len xs - 1)) as Hpos by (apply IZR_lt; lia).
    pose proof (squares_nonneg m xs) as Hsq.
    apply sqrt_eq_0 in Hstd.
    2:{ apply Rmult_le_pos; [by apply sum_nonneg|].
        left. by apply Rinv_0_lt_compat. }
    assert (sum ((fun v => (v - m) ^ 2) <$> xs) = 0) as Hsum.
    { apply (Rmult_eq_reg_r (/ IZR (len xs - 1))).
      - rewrite Rmult_0_l. exact Hstd.
      - apply Rinv_neq_0_compat. lra. }
    exists m. apply sum_nonneg_zero in Hsum; [|assumption].
    apply Forall_fmap in Hsum. eapply Forall_impl; [exact Hsum|].
    simpl. intros x Hx.
    apply Rmult_integral in Hx as [Hx|Hx]; [lra|].
    apply Rmult_integral in Hx as [Hx|Hx]; lra.
  - intros [c Hc]. by apply (std_constant c).
  - intros s Hs. destruct (calculate_std_total xs) as (s' & Hs' & Hs0).
    congruence.
Qed.

Lemma std_zero_iff_constant_witness :
  calculate_std [4; 4; 4] = Ok 0.
Proof.
  destruct (std_zero_iff_constant [4; 4; 4]) as [[_ Hconst] _].
  - unfold len. simpl. lia.
  - apply Hconst. exists 4. by repeat constructor.
Defined.

Lemma sum_permutation (xs ys : list R) : xs ≡ₚ ys -> sum xs = sum ys.
Proof.
  induction 1 as [|x xs ys _ IH|x y xs|xs ys zs _ IH1 _ IH2].
  - reflexivity.
  - rewrite !sum_cons. lra.
  - rewrite !sum_cons. lra.
  - congruence.
Qed.

Lemma len_permutation {A : Type} (xs ys : list A) : xs ≡ₚ ys -> len xs = len ys.
Proof. intros Hp. unfold len. by rewrite Hp. Qed.

Lemma calculate_mean_permutation (xs ys : list R) :
  xs ≡ₚ ys -> calculate_mean xs = calculate_mean ys.
Proof.
  intros Hp. destruct xs as [|x xs].
  - apply Permutation_nil_l in Hp. by subst.
  - destruct ys as [|y ys]; [by apply Permutation_nil_r in Hp|].
    rewrite !calculate_mean_nonempty by discriminate.
    by rewrite (sum_permutation _ _ Hp), (len_permutation _ _ Hp).
Qed.

Lemma calculate_std_permutation (xs ys : list R) :
  xs ≡ₚ ys -> calculate_std xs = calculate_std ys.
Proof.
  intros Hp. pose proof (len_permutation _ _ Hp) as Hlen.
  destruct (Z.lt_ge_cases (len xs) 2) as [Hn|Hn].
  - rewrite !calculate_std_short by lia. reflexivity.
  - destruct (calculate_mean_total xs) as [m Hm].
    assert (calculate_mean ys = Ok m) as Hm'
      by (by rewrite <- (calculate_mean_permutation _ _ Hp)).
    rewrite (calculate_std_long xs m Hn Hm).
    rewrite (calculate_std_long ys m); [|lia | assumption].
    rewrite Hlen. do 3 f_equal. apply sum_permutation. by apply fmap_Permutation.
Qed.

Lemma max_permutation (xs ys : list R) : xs ≡ₚ ys -> max xs = max ys.
Proof.
  intros Hp. destruct xs as [|x xs].
  - apply Permutation_nil_l in Hp. by subst.
  - destruct ys as [|y ys]; [by apply Permutation_nil_r in Hp|].
    destruct (max_nonempty (x :: xs)) as [m Hm]; [discriminate|].
    destruct (max_nonempty (y :: ys)) as [m' Hm']; [discriminate|].
    destruct (max_spec _ _ Hm) as [Hin Hub].
    destruct (max_spec _ _ Hm') as [Hin' Hub'].
    rewrite Hm, Hm'. f_equal. apply Rle_antisym.
    + rewrite Hp in Hin. by apply (proj1 (Forall_forall _ _) Hub').
    + rewrite <- Hp in Hin'. by apply (proj1 (Forall_forall _ _) Hub).
Qed.

(** X3: the mean, the standard deviation and the maximum do not depend on
    the order of the values. *)
Theorem statistics_ignore_order (xs ys : list R) :
  xs ≡ₚ ys ->
  calculate_mean xs = calculate_mean ys /\
  calculate_std xs = calculate_std ys /\
  max xs = max ys.
Proof.
  intros Hp. split; [by apply calculate_mean_permutation|].
  split; [by apply calculate_std_permutation | by apply max_permutation].
Qed.

Lemma statistics_ignore_order_witness :
  calculate_mean [40; 55; 30] = calculate_mean [30; 40; 55] /\
  calculate_std [40; 55; 30] = calculate_std [30; 40; 55] /\
  max [40; 55; 30] = max [30; 40; 55].
Proof.
  apply statistics_ignore_order.
  change [30; 40; 55] with ([30] ++ [40; 55]).
  change [40; 55; 30] with ([40; 55] ++ [30]).
  apply Permutation_app_comm.
Defined.

(** ** The trend slope, continued *)

Lemma Ok_inj {A : Type} (a b : A) : Ok a = Ok b -> a = b.
Proof. by intros [=]. Qed.

Lemma for_each_ok {A B : Type} (f : A -> res B) (g : A -> B) (l : list A) :
  Forall (fun a => f a = Ok (g a)) l -> for_each f l = Ok (g <$> l).
Proof.
  induction 1 as [|a l Ha _ IH]; [reflexivity|].
  simpl. by rewrite Ha, IH.
Qed.

Lemma getitem_lookup (l : list R) (k : nat) (v : R) :
  l !! k = Some v -> getitem l (Z.of_nat k) = Ok v.
Proof.
  intros Hk. unfold getitem. cbv zeta.
  assert ((Z.of_nat k <? 0)%Z = false) as Hnonneg by (apply Z.ltb_ge; lia).
  rewrite Hnonneg. by rewrite Hnonneg, Nat2Z.id, Hk.
Qed.

Lemma range_lookup (n : Z) (k : nat) :
  (k < Z.to_nat n)%nat -> range n !! k = Some (Z.of_nat k).
Proof.
  intros Hk. unfold range. rewrite list_lookup_fmap, lookup_seq_lt by assumption.
  reflexivity.
Qed.

(** What the two sums of [calculate_trend] come to when [values[i]] is
    [y i] for every index [i] of the range. *)
Lemma trend_den_value (x_mean : R) (n : Z) :
  trend_den (IZR <$> range n) x_mean n
  = Ok (sum ((fun i => (IZR i - x_mean) ^ 2) <$> range n)).
Proof.
  unfold trend_den.
  rewrite (for_each_ok _ (fun i => (IZR i - x_mean) ^ 2)); [reflexivity|].
  apply Forall_forall. intros i Hi.
  destruct (range_elem n i Hi) as (k & -> & Hk).
  rewrite (getitem_lookup _ k (IZR (Z.of_nat k))); [reflexivity|].
  by rewrite list_lookup_fmap, range_lookup.
Qed.

Lemma trend_num_value (values : list R) (y : Z -> R) (x_mean y_mean : R) (n : Z) :
  (forall k : nat, (k < Z.to_nat n)%nat -> values !! k = Some (y (Z.of_nat k))) ->
  trend_num (IZR <$> range n) values x_mean y_mean n
  = Ok (sum ((fun i => (IZR i - x_mean) * (y i - y_mean)) <$> range n)).
Proof.
  intros Hy. unfold trend_num.
  rewrite (for_each_ok _ (fun i => (IZR i - x_mean) * (y i - y_mean)));
    [reflexivity|].
  apply Forall_forall. intros i Hi.
  destruct (range_elem n i Hi) as (k & -> & Hk).
  rewrite (getitem_lookup (IZR <$> range n) k (IZR (Z.of_nat k)))
    by (by rewrite list_lookup_fmap, range_lookup).
  cbn [mbind res_bind rbind].
  by rewrite (getitem_lookup values k (y (Z.of_nat k))) by (by apply Hy).
Qed.

Lemma range_two_or_more (n : Z) :
  (2 <= n)%Z -> exists tl, range n = 0%Z :: 1%Z :: tl.
Proof.
  intros Hn. unfold range.
  destruct (Z.to_nat n) as [|[|m]] eqn:Hm; [lia | lia |].
  eexists. reflexivity.
Qed.

Lemma index_variance_positive (x_mean : R) (n : Z) :
  (2 <= n)%Z -> 0 < sum ((fun i => (IZR i - x_mean) ^ 2) <$> range n).
Proof.
  intros Hn. destruct (range_two_or_more n Hn) as [tl ->].
  rewrite !fmap_cons, !sum_cons.
  assert (0 <= sum ((fun i => (IZR i - x_mean) ^ 2) <$> tl)) as Htl.
  { apply sum_nonneg, Forall_fmap, Forall_true. intros i. apply pow2_ge_0. }
  nra.
Qed.

(** For two or more values the denominator is positive and the result is
    the quotient of the two sums. *)
Lemma calculate_trend_quotient (values : list R) :
  (2 <= len values)%Z ->
  exists x_mean y_mean num den,
    calculate_mean (IZR <$> range (len values)) = Ok x_mean /\
    calculate_mean values = Ok y_mean /\
    trend_num (IZR <$> range (len values)) values x_mean y_mean (len values)
      = Ok num /\
    trend_den (IZR <$> range (len values)) x_mean (len values) = Ok den /\
    0 < den /\
    calculate_trend values = Ok (num / den).
Proof.
  intros Hn.
  destruct (calculate_trend_long values Hn)
    as (x_mean & y_mean & num & den & Hxm & Hym & Hnum & Hden & Htrend).
  exists x_mean, y_mean, num, den. repeat (split; [assumption|]).
  assert (0 < den) as Hpos.
  { rewrite trend_den_value in Hden. apply Ok_inj in Hden. rewrite <- Hden.
    by apply index_variance_positive. }
  split; [assumption|].
  rewrite Htrend. unfold trend_ratio.
  destruct (Req_dec_T den 0); [lra|]. by apply truediv_ok.
Qed.

(** X4: [calculate_trend] raises on no input.  For two or more values the
    denominator it computes is positive, so the zero-denominator branch is
    not taken and the result is the quotient of the two sums. *)
Theorem trend_never_raises (values : list R) :
  (exists t, calculate_trend values = Ok t) /\
  ((2 <= len values)%Z ->
   exists x_mean y_mean num den,
     calculate_mean (IZR <$> range (len values)) = Ok x_mean /\
     calculate_mean values = Ok y_mean /\
     trend_num (IZR <$> range (len values)) values x_mean y_mean (len values)
       = Ok num /\
     trend_den (IZR <$> range (len values)) x_mean (len values) = Ok den /\
     0 < den /\
     calculate_trend values = Ok (num / den)).
Proof.
  split; [apply calculate_trend_total | apply calculate_trend_quotient].
Qed.

Lemma trend_never_raises_witness :
  exists t, calculate_trend [40; 55; 30] = Ok t.
Proof.
  destruct (trend_never_raises [40; 55; 30]) as [_ Hlong].
  destruct Hlong as (? & ? & num & den & _ & _ & _ & _ & _ & Ht).
  - unfold len. simpl. lia.
  - by exists (num / den).
Defined.

Lemma sum_fmap_affine {A : Type} (f : A -> R) (a b : R) (l : list A) :
  sum ((fun i => a + b * f i) <$> l) = IZR (len l) * a + b * sum (f <$> l).
Proof.
  induction l as [|i l IH].
  - unfold sum, len. simpl. change (Z.of_nat 0) with 0%Z. lra.
  - rewrite !fmap_cons, !sum_cons, IH. unfold len. simpl length.
    rewrite Nat2Z.inj_succ, succ_IZR. lra.
Qed.

Lemma sum_fmap_ext {A : Type} (f g : A -> R) (l : list A) :
  (forall i, f i = g i) -> sum (f <$> l) = sum (g <$> l).
Proof. intros Hfg. f_equal. by apply list_fmap_ext. Qed.

Lemma range_len (n : Z) : (0 <= n)%Z -> len (range n) = n.
Proof. intros Hn. unfold len. rewrite range_length. lia. Qed.

(** X5: on an exactly linear series [a + b * i], [i = 0 .. n-1], of two or
    more values the trend is the slope [b]; in particular it is 0 on a
    constant series. *)
Theorem trend_of_linear_series (a b : R) (n : Z) :
  (2 <= n)%Z ->
  calculate_trend ((fun i => a + b * IZR i) <$> range n) = Ok b.
Proof.
  intros Hn. set (values := (fun i => a + b * IZR i) <$> range n).
  assert (len values = n) as Hlen
    by (subst values; unfold len; rewrite length_fmap, range_length; lia).
  destruct (calculate_trend_quotient values)
    as (x_mean & y_mean & num & den & Hxm & Hym & Hnum & Hden & Hpos & ->);
    [lia|].
  rewrite Hlen in *.
  assert (0 < IZR n) as Hn' by (apply IZR_lt; lia).
  rewrite calculate_mean_nonempty in Hxm
    by (destruct (range_two_or_more n Hn) as [tl ->]; discriminate).
  rewrite calculate_mean_nonempty in Hym
    by (subst values; destruct (range_two_or_more n Hn) as [tl ->]; discriminate).
  apply Ok_inj in Hxm. apply Ok_inj in Hym.
  rewrite Hlen in Hym. unfold len in Hxm.
  rewrite length_fmap, range_length, Z2Nat.id in Hxm by lia.
  subst values. rewrite sum_fmap_affine, range_len in Hym by lia.
  assert (y_mean = a + b * x_mean) as Hy.
  { rewrite <- Hym, <- Hxm. field. lra. }
  rewrite (trend_num_value _ (fun i => a + b * IZR i)) in Hnum.
  2:{ intros k Hk. by rewrite list_lookup_fmap, range_lookup. }
  rewrite trend_den_value in Hden.
  apply Ok_inj in Hnum. apply Ok_inj in Hden.
  assert (num = b * den) as ->.
  { rewrite <- Hnum, <- Hden.
    rewrite (sum_fmap_ext _ (fun i => 0 + b * (IZR i - x_mean) ^ 2))
      by (intros i; rewrite Hy; simpl; lra).
    rewrite sum_fmap_affine. lra. }
  f_equal. field. lra.
Qed.

Lemma trend_of_linear_series_witness :
  calculate_trend ((fun i => 10 + 3 * IZR i) <$> range 4) = Ok 3.
Proof. apply trend_of_linear_series. lia. Defined.

(** ** The yearly aggregator, continued *)

Lemma valid_nonneg_length (series : list (option R)) :
  (length (valid_nonneg series) <= length series)%nat.
Proof.
  unfold valid_nonneg. induction series as [|o series IH]; [reflexivity|].
  cbn [omap list_omap]. destruct o as [r|]; [destruct (Rge_dec r 0)|];
    simpl; fold (@omap list _ (option R) R) in *; lia.
Qed.

Lemma sum_ge_elem (xs : list R) (x : R) :
  Forall (fun v => 0 <= v) xs -> x ∈ xs -> x <= sum xs.
Proof.
  induction 1 as [|y xs Hy Hxs IH]; intros Hin; [by apply elem_of_nil in Hin|].
  rewrite sum_cons. pose proof (sum_nonneg xs Hxs).
  apply elem_of_cons in Hin as [->|Hin]; [lra|]. specialize (IH Hin). lra.
Qed.

(** What a returned summary was computed from. *)
Lemma process_yearly_data_some
    (daily : gmap string (list (option R))) (year : Z) (s : Summary.t) :
  process_yearly_data daily year = Ok (Some s) ->
  valid_nonneg (dict_get daily "precipitation_sum") <> [] /\
  Summary.year s = year /\
  max (valid_nonneg (dict_get daily "precipitation_sum")) = Ok (Summary.amdp s) /\
  Summary.totalPrecip s = sum (valid_nonneg (dict_get daily "precipitation_sum")) /\
  Summary.dataPoints s = len (valid_nonneg (dict_get daily "precipitation_sum")).
Proof.
  unfold process_yearly_data. intros Hs.
  destruct (valid_nonneg (dict_get daily "precipitation_sum")) as [|p ps];
    [discriminate|].
  destruct (max_nonempty (p :: ps)) as [amdp Hmax]; [discriminate|].
  rewrite Hmax in Hs |- *. cbn [mbind res_bind rbind] in Hs.
  destruct (if_nonempty_spec
              (valid_present (dict_get daily "temperature_2m_mean"))
              calculate_mean) as (avg_temp & Hat & _);
    [intros _; apply calculate_mean_total|].
  rewrite Hat in Hs. cbn [mbind res_bind rbind] in Hs.
  destruct (if_nonempty_spec
              (valid_present (dict_get daily "temperature_2m_max")) max)
    as (max_temp & Hxt & _); [apply max_nonempty|].
  rewrite Hxt in Hs. cbn [mbind res_bind rbind] in Hs.
  destruct (if_nonempty_spec
              (valid_present (dict_get daily "temperature_2m_min")) min)
    as (min_temp & Hnt & _); [apply min_nonempty|].
  rewrite Hnt in Hs. cbn [mbind res_bind rbind] in Hs.
  destruct (if_nonempty_spec
              (valid_present (dict_get daily "windspeed_10m_max"))
              calculate_mean) as (avg_wind & Haw & _);
    [intros _; apply calculate_mean_total|].
  rewrite Haw in Hs. cbn [mbind res_bind rbind] in Hs.
  injection Hs as <-. by repeat (split; [done|]).
Qed.

(** X6: in exact arithmetic, in every summary the aggregator returns,
    [year] is the year it was given,
    [0 <= amdp <= totalPrecip <= dataPoints * amdp], and [dataPoints] is at
    least 1 and at most the number of days in the precipitation series. *)
Theorem summary_invariants
    (daily : gmap string (list (option R))) (year : Z) (s : Summary.t) :
  process_yearly_data daily year = Ok (Some s) ->
  Summary.year s = year /\
  0 <= Summary.amdp s <= Summary.totalPrecip s /\
  Summary.totalPrecip s <= IZR (Summary.dataPoints s) * Summary.amdp s /\
  (1 <= Summary.dataPoints s <= len (dict_get daily "precipitation_sum"))%Z.
Proof.
  intros Hs.
  destruct (process_yearly_data_some daily year s Hs)
    as (Hne & Hyear & Hmax & Htotal & Hcount).
  set (valid_precip := valid_nonneg (dict_get daily "precipitation_sum")) in *.
  destruct (max_spec _ _ Hmax) as [Hin Hub].
  assert (Forall (fun v => 0 <= v) valid_precip) as Hnonneg.
  { apply Forall_forall. intros v Hv. by apply valid_nonneg_elem in Hv as [_ ?]. }
  split; [assumption|]. rewrite Htotal, Hcount.
  split; [split|split].
  - by apply (proj1 (Forall_forall _ _) Hnonneg).
  - by apply sum_ge_elem.
  - by apply sum_le_bound.
  - pose proof (len_pos valid_precip Hne).
    pose proof (valid_nonneg_length (dict_get daily "precipitation_sum")).
    unfold len in *. fold valid_precip in H0. lia.
Qed.

(** A year with the daily values 2, [None], -1 and 5: two valid values,
    the larger one 5, their sum 7. *)
Lemma wet_year_aggregated :
  process_yearly_data
    {[ "precipitation_sum" := [Some 2; None; Some (-1); Some 5] ]} 2021
  = Ok (Some (Summary.mk 2021 5 7 None None None None 2)).
Proof.
  unfold process_yearly_data, dict_get.
  rewrite lookup_singleton_eq.
  do 4 (rewrite lookup_singleton_ne by discriminate).
  cbn [default from_option Datatypes.id valid_present omap list_omap].
  assert (valid_nonneg [Some 2; None; Some (-1); Some 5] = [2; 5]) as ->.
  { unfold valid_nonneg. cbn [omap list_omap].
    destruct (Rge_dec 2 0); [|lra]. destruct (Rge_dec (-1) 0); [lra|].
    destruct (Rge_dec 5 0); [reflexivity | lra]. }
  unfold max. cbn [foldl].
  assert (max2 2 5 = 5) as ->
    by (unfold max2; destruct (Rlt_dec 2 5); [reflexivity | lra]).
  cbn [mbind res_bind rbind if_nonempty].
  do 2 f_equal. f_equal. rewrite !sum_cons, sum_nil. lra.
Qed.

Lemma summary_invariants_witness :
  0 <= 5 <= 7 /\ 7 <= IZR 2 * 5 /\
  (1 <= 2 <= len (dict_get {[ "precipitation_sum" :=
                               [Some 2; None; Some (-1); Some 5]%R ]}
                           "precipitation_sum"))%Z.
Proof.
  destruct (summary_invariants _ _ _ wet_year_aggregated) as (_ & H1 & H2 & H3).
  simpl in H1, H2, H3. by repeat split; try apply H1; try apply H3.
Defined.

Lemma valid_nonneg_all_invalid (series : list (option R)) :
  Forall (fun v => match v with Some r => r < 0 | None => True end) series ->
  valid_nonneg series = [].
Proof.
  induction 1 as [|v series Hv _ IH]; [reflexivity|].
  unfold valid_nonneg in *. cbn [omap list_omap].
  destruct v as [r|]; [destruct (Rge_dec r 0); [lra|]|]; exact IH.
Qed.

(** X7: the aggregator raises on no dict; when the key
    ['precipitation_sum'] is missing, or every value under it is [None] or
    negative, it returns [None], whatever the other series hold. *)
Theorem aggregator_never_raises
    (daily : gmap string (list (option R))) (year : Z) :
  (exists o, process_yearly_data daily year = Ok o) /\
  (daily !! "precipitation_sum" = None -> process_yearly_data daily year = Ok None) /\
  (Forall (fun v => match v with Some r => r < 0 | None => True end)
          (dict_get daily "precipitation_sum") ->
   process_yearly_data daily year = Ok None).
Proof.
  assert (valid_nonneg (dict_get daily "precipitation_sum") = [] ->
          process_yearly_data daily year = Ok None) as Hnone.
  { intros Hnil. unfold process_yearly_data. by rewrite Hnil. }
  split; [|split].
  - destruct (valid_nonneg (dict_get daily "precipitation_sum")) as [|p ps] eqn:Hvp.
    + exists None. by apply Hnone.
    + unfold process_yearly_data. rewrite Hvp.
      destruct (max_nonempty (p :: ps)) as [amdp ->]; [discriminate|].
      cbn [mbind res_bind rbind].
      destruct (if_nonempty_spec
                  (valid_present (dict_get daily "temperature_2m_mean"))
                  calculate_mean) as (? & -> & _);
        [intros _; apply calculate_mean_total|].
      cbn [mbind res_bind rbind].
      destruct (if_nonempty_spec
                  (valid_present (dict_get daily "temperature_2m_max")) max)
        as (? & -> & _); [apply max_nonempty|].
      cbn [mbind res_bind rbind].
      destruct (if_nonempty_spec
                  (valid_present (dict_get daily "temperature_2m_min")) min)
        as (? & -> & _); [apply min_nonempty|].
      cbn [mbind res_bind rbind].
      destruct (if_nonempty_spec
                  (valid_present (dict_get daily "windspeed_10m_max"))
                  calculate_mean) as (? & -> & _);
        [intros _; apply calculate_mean_total|].
      eexists. reflexivity.
  - intros Hmiss. apply Hnone. unfold dict_get. by rewrite Hmiss.
  - intros Hall. by apply Hnone, valid_nonneg_all_invalid.
Qed.

Lemma aggregator_never_raises_witness :
  process_yearly_data {[ "temperature_2m_max" := [Some 21; Some 19] ]} 2021
  = Ok None.
Proof.
  destruct (aggregator_never_raises
              {[ "temperature_2m_max" := [Some 21; Some 19] ]} 2021)
    as (_ & Hmiss & _).
  apply Hmiss. by apply lookup_singleton_ne.
Defined.

(** ** The estimator, continued *)

Lemma bind_raise {A B : Type} (m : M A) (k : A -> M B) (h h' : heap) (e : exn) :
  m h = (Raise e, h') -> (m ≫= k) h = (Raise e, h').
Proof. intros Hm. unfold mbind, M_bind. by rewrite Hm. Qed.

(** X8: on the empty series the estimator raises [ValueError] (from
    [max]) before it copies or divides anything, and leaves the store as it
    was; so does the calculator on an empty sequence of summaries, after
    allocating the empty AMDP list. *)
Theorem empty_series_raises (h : heap) (l : loc) (climate_factor : R) :
  h !! l = Some [] ->
  calculate_pmp_with_eva l h = (Raise ValueError, h) /\
  calculate_hydrological_parameters [] climate_factor h
    = (Raise ValueError, <[fresh (dom h) := []]> h).
Proof.
  intros Hl.
  assert (forall (h0 : heap) (l0 : loc),
             h0 !! l0 = Some [] ->
             calculate_pmp_with_eva l0 h0 = (Raise ValueError, h0)) as Heva.
  { intros h0 l0 Hl0. unfold calculate_pmp_with_eva.
    apply bind_raise. unfold calculate_pmp_with_eva_body.
    rewrite (bind_run _ _ h0 h0 0) by (by rewrite (call_run _ _ _ [])).
    rewrite (bind_run _ _ h0 h0 0) by (by rewrite (call_run _ _ _ [])).
    apply bind_raise. by rewrite (call_run _ _ _ []). }
  split; [by apply Heva|].
  unfold calculate_hydrological_parameters.
  set (h1 := <[fresh (dom h) := []]> h).
  assert (h1 !! fresh (dom h) = Some []) as Hl1 by apply lookup_insert_eq.
  rewrite (bind_run _ _ h h1 (fresh (dom h)) (new_list_run [] h)).
  rewrite (bind_run _ _ h1 h1 0) by (by rewrite (call_run _ _ _ [])).
  rewrite (bind_run _ _ h1 h1 0) by (by rewrite (call_run _ _ _ [])).
  rewrite (bind_run _ _ h1 h1 0) by reflexivity.
  apply bind_raise. by apply Heva.
Qed.

Lemma empty_series_raises_witness :
  calculate_pmp_with_eva 1%positive {[ 1%positive := [] ]}
  = (Raise ValueError, {[ 1%positive := [] ]}).
Proof.
  apply (empty_series_raises {[ 1%positive := [] ]} 1%positive 0).
  apply lookup_singleton_eq.
Defined.

Lemma list_remove_permutation (x : R) (xs rest_xs : list R) :
  list_remove x xs = Some rest_xs -> xs ≡ₚ x :: rest_xs.
Proof.
  revert rest_xs. induction xs as [|y xs IH]; intros rest_xs Hrm; [discriminate|].
  simpl in Hrm. destruct (Req_dec_T y x) as [->|_]; [by injection Hrm as <-|].
  destruct (list_remove x xs) as [t|]; [|discriminate].
  injection Hrm as <-. rewrite (IH t eq_refl). apply Permutation_swap.
Qed.

(** The returned values are determined by the series up to its order. *)
Lemma body_post_permutation (xs ys rest_xs rest_ys : list R) (fx fy : Locals.t) :
  xs ≡ₚ ys -> body_post xs rest_xs fx -> body_post ys rest_ys fy ->
  Locals.pmp fx = Locals.pmp fy /\
  Locals.frequency_factor fx = Locals.frequency_factor fy /\
  Locals.confidence_interval fx = Locals.confidence_interval fy.
Proof.
  intros Hp Hx Hy.
  assert (Locals.mean fx = Locals.mean fy) as Hmean.
  { apply Ok_inj. rewrite <- (post_mean _ _ _ Hx), <- (post_mean _ _ _ Hy).
    by apply calculate_mean_permutation. }
  assert (Locals.std fx = Locals.std fy) as Hstd.
  { apply Ok_inj. rewrite <- (post_std _ _ _ Hx), <- (post_std _ _ _ Hy).
    by apply calculate_std_permutation. }
  assert (Locals.Xmax fx = Locals.Xmax fy) as HXmax.
  { apply Ok_inj. rewrite <- (post_Xmax _ _ _ Hx), <- (post_Xmax _ _ _ Hy).
    by apply max_permutation. }
  assert (rest_xs ≡ₚ rest_ys) as Hrest.
  { apply (Permutation_cons_inv (a := Locals.Xmax fx)).
    rewrite <- (list_remove_permutation _ _ _ (post_rest _ _ _ Hx)).
    rewrite HXmax.
    rewrite <- (list_remove_permutation _ _ _ (post_rest _ _ _ Hy)).
    exact Hp. }
  assert (Locals.Xmean fx = Locals.Xmean fy /\ Locals.S fx = Locals.S fy)
    as [HXmean HS].
  { destruct rest_xs as [|r rest_tl] eqn:Hrx.
    - apply Permutation_nil_l in Hrest. subst rest_ys.
      destruct (post_degenerate _ _ _ Hx eq_refl) as [-> ->].
      destruct (post_degenerate _ _ _ Hy eq_refl) as [-> ->].
      by rewrite Hmean, Hstd.
    - assert (rest_ys <> []) as Hne
        by (intros ->; by apply Permutation_nil_r in Hrest).
      destruct (post_leave_one_out _ _ _ Hx) as (Hmx & sx & Hsx & _ & ->);
        [discriminate|].
      destruct (post_leave_one_out _ _ _ Hy Hne) as (Hmy & sy & Hsy & _ & ->).
      rewrite (calculate_mean_permutation _ _ Hrest) in Hmx.
      rewrite (calculate_std_permutation _ _ Hrest) in Hsx.
      split; [congruence|]. f_equal. congruence. }
  assert (Locals.frequency_factor fx = Locals.frequency_factor fy) as Hff.
  { rewrite (post_ff _ _ _ Hx), (post_ff _ _ _ Hy).
    rewrite (post_raw _ _ _ Hx), (post_raw _ _ _ Hy).
    rewrite (post_km_a _ _ _ Hx), (post_km_a _ _ _ Hy).
    rewrite (post_km_b _ _ _ Hx), (post_km_b _ _ _ Hy).
    by rewrite HXmax, HXmean, HS, Hmean, Hstd. }
  assert (Locals.pmp fx = Locals.pmp fy) as Hpmp.
  { rewrite (post_pmp _ _ _ Hx), (post_pmp _ _ _ Hy). by rewrite Hmean, Hff, Hstd. }
  split; [assumption|]. split; [assumption|].
  rewrite (post_ci _ _ _ Hx), (post_ci _ _ _ Hy).
  rewrite (post_se _ _ _ Hx), (post_se _ _ _ Hy).
  by rewrite Hpmp, Hstd, (len_permutation _ _ Hp).
Qed.

(** X9: the estimate does not depend on the order of the years: on two
    non-empty series that are permutations of each other the estimator
    returns the same [pmp], [frequencyFactor] and [confidenceInterval]. *)
Theorem estimate_ignores_order
    (h1 h2 : heap) (l1 l2 : loc) (xs ys : list R) :
  h1 !! l1 = Some xs -> h2 !! l2 = Some ys -> xs <> [] -> xs ≡ₚ ys ->
  exists r h1' h2',
    calculate_pmp_with_eva l1 h1 = (Ok r, h1') /\
    calculate_pmp_with_eva l2 h2 = (Ok r, h2').
Proof.
  intros Hl1 Hl2 Hne Hp.
  assert (ys <> []) as Hne' by (intros ->; by apply Permutation_nil_r in Hp).
  destruct (eva_run h1 l1 xs Hl1 Hne) as (fx & rest_xs & _ & Hrx & _ & Hx).
  destruct (eva_run h2 l2 ys Hl2 Hne') as (fy & rest_ys & _ & Hry & _ & Hy).
  destruct (body_post_permutation _ _ _ _ _ _ Hp Hx Hy) as (Hpmp & Hff & Hci).
  eexists _, _, _. split; [exact Hrx|]. by rewrite Hry, Hpmp, Hff, Hci.
Qed.

Lemma estimate_ignores_order_witness :
  exists r h1' h2',
    calculate_pmp_with_eva 1%positive {[ 1%positive := [40; 55; 30] ]} = (Ok r, h1') /\
    calculate_pmp_with_eva 1%positive {[ 1%positive := [30; 40; 55] ]} = (Ok r, h2').
Proof.
  apply (estimate_ignores_order _ _ _ _ [40; 55; 30] [30; 40; 55]).
  - apply lookup_singleton_eq.
  - apply lookup_singleton_eq.
  - discriminate.
  - change [30; 40; 55] with ([30] ++ [40; 55]).
    change [40; 55; 30] with ([40; 55] ++ [30]).
    apply Permutation_app_comm.
Defined.

Lemma clamp_saturated (raw : R) : 25 <= raw -> clamp raw = 25.
Proof.
  intros Hraw. unfold clamp, min2, max2.
  destruct (Rlt_dec raw 25); [lra|]. destruct (Rlt_dec 1 25); [reflexivity | lra].
Qed.

Lemma round2_grid (k : Z) : round2 (IZR k / 100) = IZR k / 100.
Proof.
  unfold round2. replace (IZR k / 100 * 100) with (IZR k) by (field; lra).
  by rewrite round_half_even_IZR.
Qed.

Lemma mean_singleton (x : R) : calculate_mean [x] = Ok x.
Proof.
  rewrite calculate_mean_nonempty by discriminate.
  rewrite sum_cons, sum_nil. change (IZR (len [x])) with 1. f_equal. field.
Qed.

(** X10: in exact arithmetic, with two years of data whose maxima differ
    by at least [25 * eps = 0.000025] the frequency factor is saturated at
    25.0: [Xmax] is the larger value, the leave-one-out list [rest] has one
    element, the smaller value, its standard deviation is replaced by [eps],
    and [km_a] is the difference divided by [eps]. *)
Theorem two_values_saturate (h : heap) (l : loc) (a b : R) :
  h !! l = Some [a; b] -> 25 * eps <= Rabs (a - b) ->
  exists r fr h',
    calculate_pmp_with_eva l h = (Ok r, h') /\
    calculate_pmp_with_eva_body l h = (Ok fr, h') /\
    Locals.Xmax fr = Rmax a b /\
    h' !! Locals.rest fr = Some [Rmin a b] /\
    Locals.S fr = eps /\
    Locals.km_a fr = Rabs (a - b) / eps /\
    EVA.frequencyFactor r = 25.
Proof.
  intros Hl Hgap.
  destruct (eva_run h l _ Hl) as (fr & rest_xs & Hbody & Hrun & Hloc & Hpost);
    [discriminate|].
  pose proof eps_pos as Heps.
  pose proof (post_Xmax _ _ _ Hpost) as HXmax. apply Ok_inj in HXmax.
  cbn [foldl] in HXmax.
  pose proof (post_rest _ _ _ Hpost) as Hrm.
  assert (exists o, rest_xs = [o] /\ Locals.Xmax fr - o = Rabs (a - b) /\
                    o = Rmin a b /\ Locals.Xmax fr = Rmax a b)
    as (o & -> & Hdiff & Ho & HXmax').
  { rewrite <- HXmax in Hrm |- *. unfold max2 in *.
    destruct (Rlt_dec a b) as [Hab|Hab].
    - simpl in Hrm. destruct (Req_dec_T a b); [lra|].
      destruct (Req_dec_T b b); [|lra]. injection Hrm as <-.
      exists a. split; [reflexivity|]. split; [rewrite Rabs_left; lra|].
      split; [rewrite Rmin_left; lra | rewrite Rmax_right; lra].
    - rewrite list_remove_head in Hrm. injection Hrm as <-.
      exists b. split; [reflexivity|]. split; [rewrite Rabs_right; lra|].
      split; [rewrite Rmin_right; lra | rewrite Rmax_left; lra]. }
  destruct (post_leave_one_out _ _ _ Hpost) as (HXmean & s & Hs & _ & HS);
    [discriminate|].
  rewrite mean_singleton in HXmean. apply Ok_inj in HXmean.
  rewrite calculate_std_short in Hs by (unfold len; simpl; lia).
  apply Ok_inj in Hs. subst s.
  assert (Locals.S fr = eps) as HS'.
  { rewrite HS. unfold max2. destruct (Rlt_dec 0 eps); [reflexivity | lra]. }
  assert (Locals.km_a fr = Rabs (a - b) / eps) as Hka.
  { by rewrite (post_km_a _ _ _ Hpost), HS', <- HXmean, Hdiff. }
  eexists _, fr, _. split; [exact Hrun|]. split; [exact Hbody|].
  split; [assumption|].
  split; [rewrite Hloc, Ho; apply lookup_insert_eq|].
  split; [assumption|]. split; [assumption|]. simpl.
  rewrite (post_ff _ _ _ Hpost), clamp_saturated.
  - replace 25 with (IZR 2500 / 100) by lra. apply round2_grid.
  - rewrite (post_raw _ _ _ Hpost).
    pose proof (max2_ge_l (Locals.km_a fr) (Locals.km_b fr)) as Hge.
    assert (25 <= Locals.km_a fr); [|lra].
    rewrite Hka.
    assert (Rabs (a - b) / eps * eps = Rabs (a - b)) as Hprod by (field; lra).
    nra.
Qed.

Lemma two_values_saturate_witness :
  exists r h',
    calculate_pmp_with_eva 1%positive {[ 1%positive := [40; 55] ]} = (Ok r, h') /\
    EVA.frequencyFactor r = 25.
Proof.
  destruct (two_values_saturate {[ 1%positive := [40; 55] ]} 1%positive 40 55)
    as (r & _ & h' & Hrun & _ & _ & _ & _ & _ & Hff).
  - apply lookup_singleton_eq.
  - unfold eps. rewrite Rabs_left; lra.
  - by exists r, h'.
Defined.

Lemma round_half_even_error (y : R) : Rabs (IZR (round_half_even y) - y) <= 1 / 2.
Proof.
  destruct (Zfloor_bound y) as [Hlo Hhi].
  unfold round_half_even.
  destruct (Rlt_dec _ _) as [Hd|Hd].
  - rewrite Rabs_left1; lra.
  - destruct (Rlt_dec _ _) as [Hd'|Hd'].
    + rewrite plus_IZR, Rabs_right; lra.
    + destruct (Z.even _).
      * rewrite Rabs_left1; lra.
      * rewrite plus_IZR, Rabs_right; lra.
Qed.

(** X11: in exact arithmetic the frequency factor the estimator returns
    is a whole number of hundredths between 1.00 and 25.00, within 0.005 of
    the clamped raw factor; [pmp] lies between [mean + std] and
    [mean + 25 * std]; and the confidence interval is symmetric about
    [pmp]. *)
Theorem estimate_bounds (h : heap) (l : loc) (xs : list R) :
  h !! l = Some xs -> xs <> [] ->
  exists r fr h',
    calculate_pmp_with_eva l h = (Ok r, h') /\
    calculate_pmp_with_eva_body l h = (Ok fr, h') /\
    (exists k : Z, (100 <= k <= 2500)%Z /\ EVA.frequencyFactor r = IZR k / 100) /\
    Rabs (EVA.frequencyFactor r - clamp (Locals.frequency_factor_raw fr))
      <= 0.005 /\
    Locals.mean fr + Locals.std fr <= EVA.pmp r <= Locals.mean fr + 25 * Locals.std fr /\
    CI.lower (EVA.confidenceInterval r) <= EVA.pmp r
      <= CI.upper (EVA.confidenceInterval r) /\
    CI.upper (EVA.confidenceInterval r) - EVA.pmp r
      = EVA.pmp r - CI.lower (EVA.confidenceInterval r).
Proof.
  intros Hl Hne.
  destruct (eva_run h l xs Hl Hne) as (fr & rest_xs & Hbody & Hrun & _ & Hpost).
  eexists _, fr, _. split; [exact Hrun|]. split; [exact Hbody|]. simpl.
  pose proof (clamp_bounds (Locals.frequency_factor_raw fr)) as Hclamp.
  pose proof (frequency_factor_bounds _ _ _ Hpost) as Hff.
  pose proof (post_std_nonneg _ _ _ Hpost) as Hstd.
  split; [|split; [|split; [|split]]].
  - rewrite (post_ff _ _ _ Hpost). unfold round2. eexists. split; [|reflexivity].
    split; [apply round_half_even_lb | apply round_half_even_ub]; lra.
  - rewrite (post_ff _ _ _ Hpost). unfold round2.
    set (c := clamp (Locals.frequency_factor_raw fr)) in *.
    pose proof (round_half_even_error (c * 100)) as Herr.
    replace (IZR (round_half_even (c * 100)) / 100 - c)
      with ((IZR (round_half_even (c * 100)) - c * 100) / 100) by (field; lra).
    unfold Rdiv. rewrite Rabs_mult, (Rabs_right (/ 100)) by lra. lra.
  - rewrite (post_pmp _ _ _ Hpost). nra.
  - rewrite (post_ci _ _ _ Hpost), (post_se _ _ _ Hpost). simpl.
    assert (0 <= Locals.std fr / sqrt (IZR (len xs))); [|lra].
    apply Rmult_le_pos; [assumption|]. left. apply Rinv_0_lt_compat.
    apply sqrt_lt_R0, IZR_lt. by apply len_pos.
  - rewrite (post_ci _ _ _ Hpost). simpl. lra.
Qed.

Lemma estimate_bounds_witness :
  exists r h',
    calculate_pmp_with_eva 1%positive {[ 1%positive := [40; 55; 30] ]} = (Ok r, h') /\
    CI.lower (EVA.confidenceInterval r) <= EVA.pmp r
      <= CI.upper (EVA.confidenceInterval r).
Proof.
  destruct (estimate_bounds {[ 1%positive := [40; 55; 30] ]} 1%positive [40; 55; 30])
    as (r & _ & h' & Hrun & _ & _ & _ & _ & Hci & _).
  - apply lookup_singleton_eq.
  - discriminate.
  - by exists r, h'.
Defined.

(** ** The two candidate factors *)

Lemma sum_sq_expand (l : list R) (c : R) :
  sum ((fun v => (v - c) ^ 2) <$> l)
  = sum ((fun v => v ^ 2) <$> l) - 2 * c * sum l + IZR (len l) * c ^ 2.
Proof.
  induction l as [|v l IH].
  - unfold sum, len. simpl. change (Z.of_nat 0) with 0%Z. lra.
  - rewrite !fmap_cons, !sum_cons, IH. unfold len. simpl length.
    rewrite Nat2Z.inj_succ, succ_IZR. ring.
Qed.

(** The sum of squared deviations is least about the mean. *)
Lemma sum_sq_least_about_mean (l : list R) (m c : R) :
  sum l = IZR (len l) * m ->
  sum ((fun v => (v - m) ^ 2) <$> l) <= sum ((fun v => (v - c) ^ 2) <$> l).
Proof.
  intros Hm. rewrite !sum_sq_expand, Hm.
  assert (0 <= IZR (len l)) by (apply IZR_le; unfold len; lia).
  assert (0 <= IZR (len l) * (m - c) ^ 2)
    by (apply Rmult_le_pos; [assumption | apply pow2_ge_0]).
  nra.
Qed.

Lemma mean_times_len (xs : list R) (m : R) :
  xs <> [] -> calculate_mean xs = Ok m -> sum xs = IZR (len xs) * m.
Proof.
  intros Hne Hm. rewrite calculate_mean_nonempty in Hm by assumption.
  apply Ok_inj in Hm. subst m. pose proof (IZR_len_pos xs Hne). field. lra.
Qed.

Lemma std_squared (xs : list R) (m s : R) :
  (2 <= len xs)%Z -> calculate_mean xs = Ok m -> calculate_std xs = Ok s ->
  0 <= s /\
  s * s * IZR (len xs - 1) = sum ((fun v => (v - m) ^ 2) <$> xs).
Proof.
  intros Hn Hm Hs. rewrite (calculate_std_long xs m Hn Hm) in Hs.
  apply Ok_inj in Hs. subst s.
  assert (0 < IZR (len xs - 1)) as Hpos by (apply IZR_lt; lia).
  split; [apply sqrt_pos|].
  rewrite sqrt_sqrt.
  - field. lra.
  - apply Rmult_le_pos; [apply sum_nonneg, squares_nonneg|].
    left. by apply Rinv_0_lt_compat.
Qed.

Lemma le_of_squares (a b : R) : 0 <= a -> 0 <= b -> a * a <= b * b -> a <= b.
Proof. intros Ha Hb Hab. destruct (Rle_lt_dec a b); [assumption | nra]. Qed.

(** Dropping the maximum shrinks the spread: [(n - 1) * std(rest)] is at
    most [n * std(xs)]. *)
Lemma rest_std_bound (xs rest_xs : list R) (x m s s' : R) :
  xs ≡ₚ x :: rest_xs ->
  calculate_mean xs = Ok m -> calculate_std xs = Ok s ->
  calculate_std rest_xs = Ok s' ->
  0 <= s' /\ 0 <= s /\ IZR (len rest_xs) * s' <= IZR (len xs) * s.
Proof.
  intros Hp Hm Hs Hs'.
  assert (len xs = (len rest_xs + 1)%Z) as Hlen
    by (rewrite (len_permutation _ _ Hp); unfold len; simpl length; lia).
  destruct (calculate_std_total xs) as (? & Hs0 & Hsn).
  assert (0 <= s) as Hs_nonneg by congruence. clear Hs0 Hsn.
  assert (0 <= IZR (len rest_xs)) as Hk by (apply IZR_le; unfold len; lia).
  destruct (Z.lt_ge_cases (len rest_xs) 2) as [Hshort|Hlong].
  - rewrite calculate_std_short in Hs' by assumption. apply Ok_inj in Hs'.
    subst s'. split; [lra|]. split; [assumption|].
    rewrite Rmult_0_r. apply Rmult_le_pos; [|assumption].
    apply IZR_le. unfold len. lia.
  - assert (rest_xs <> []) as Hne by (intros ->; rewrite len_nil in Hlong; lia).
    destruct (calculate_mean_total rest_xs) as [m' Hm'].
    destruct (std_squared rest_xs m' s' Hlong Hm' Hs') as [Hs'0 Hq'].
    destruct (std_squared xs m s) as [_ Hq]; [lia | assumption | assumption |].
    split; [assumption|]. split; [assumption|].
    (* the squared deviations of the rest about its own mean are at most
       those of the whole series about the mean of the series *)
    assert (sum ((fun v => (v - m') ^ 2) <$> rest_xs)
            <= sum ((fun v => (v - m) ^ 2) <$> xs)) as HQ.
    { apply Rle_trans with (sum ((fun v => (v - m) ^ 2) <$> rest_xs)).
      - apply sum_sq_least_about_mean. by apply mean_times_len.
      - rewrite (sum_permutation _ _ (fmap_Permutation _ _ _ Hp)).
        rewrite fmap_cons, sum_cons. pose proof (pow2_ge_0 (x - m)). lra. }
    rewrite <- Hq', <- Hq, Hlen in HQ. rewrite Hlen.
    replace (len rest_xs + 1 - 1)%Z with (len rest_xs) in HQ by lia.
    rewrite plus_IZR. rewrite minus_IZR in HQ.
    assert (2 <= IZR (len rest_xs)) as Hk2 by (apply IZR_le; lia).
    set (k := IZR (len rest_xs)) in *.
    apply le_of_squares; [nra | nra |].
    (* k^2 s'^2 <= (k+1)^2 s^2, from s'^2 (k-1) <= s^2 k and k >= 2 *)
    assert (0 <= s' * s') by nra. assert (0 <= s * s) by nra.
    assert (k * k * (s' * s') * (k - 1) <= k * k * (s * s * k)) as H1 by nra.
    assert (k * k * k <= (k + 1) * (k + 1) * (k - 1)) as H2 by nra.
    assert (k * k * (s * s * k) <= (k + 1) * (k + 1) * (k - 1) * (s * s)) as H3
      by nra.
    assert (0 < k - 1) by lra.
    apply (Rmult_le_reg_r (k - 1)); [assumption|]. nra.
Qed.

(** X12: the full-sample candidate never exceeds the leave-one-out one: on
    every non-empty series [0 <= km_b <= km_a], so the raw frequency factor
    [max(km_a, km_b)] is always [km_a]. *)
Theorem leave_one_out_dominates (h : heap) (l : loc) (xs : list R) :
  h !! l = Some xs -> xs <> [] ->
  exists fr h',
    calculate_pmp_with_eva_body l h = (Ok fr, h') /\
    0 <= Locals.km_b fr <= Locals.km_a fr /\
    Locals.frequency_factor_raw fr = Locals.km_a fr.
Proof.
  intros Hl Hne.
  destruct (eva_run h l xs Hl Hne) as (fr & rest_xs & Hbody & _ & _ & Hpost).
  exists fr, (<[fresh (dom h) := rest_xs]> h). split; [assumption|].
  assert (0 <= Locals.km_b fr <= Locals.km_a fr) as Hkm.
  2:{ split; [assumption|]. rewrite (post_raw _ _ _ Hpost). unfold max2.
      destruct (Rlt_dec _ _); [lra | reflexivity]. }
  pose proof eps_pos as Heps.
  pose proof (post_mean _ _ _ Hpost) as Hmean.
  pose proof (post_std _ _ _ Hpost) as Hstd.
  pose proof (post_std_nonneg _ _ _ Hpost) as Hstd0.
  pose proof (post_Xmax _ _ _ Hpost) as HXmax.
  pose proof (list_remove_permutation _ _ _ (post_rest _ _ _ Hpost)) as Hp.
  pose proof (post_S_floor _ _ _ Hpost) as HS.
  pose proof (max2_ge_r (Locals.std fr) eps) as HSb.
  pose proof (max2_ge_l (Locals.std fr) eps) as HSb'.
  set (Sb := max2 (Locals.std fr) eps) in *.
  (* the maximum is at least the mean *)
  destruct (max_spec _ _ HXmax) as [_ Hub].
  pose proof (sum_le_bound xs _ Hub) as Hsum.
  pose proof (mean_times_len xs _ Hne Hmean) as Hnm.
  pose proof (IZR_len_pos xs Hne) as Hn.
  assert (0 <= Locals.Xmax fr - Locals.mean fr) as Hd by nra.
  rewrite (post_km_a _ _ _ Hpost), (post_km_b _ _ _ Hpost). fold Sb.
  set (d := Locals.Xmax fr - Locals.mean fr) in *.
  assert (0 <= d / Sb) as Hkb0.
  { apply Rmult_le_pos; [assumption|]. left. apply Rinv_0_lt_compat. lra. }
  split; [assumption|].
  destruct rest_xs as [|r rest_tl] eqn:Hrest.
  - destruct (post_degenerate _ _ _ Hpost eq_refl) as [-> ->]. fold Sb d. lra.
  - rewrite <- Hrest in *. assert (rest_xs <> []) as Hrne by (by rewrite Hrest).
    clear Hrest r rest_tl.
    destruct (post_leave_one_out _ _ _ Hpost Hrne) as (HXmean & s & Hs & Hs0 & HSa).
    pose proof (mean_times_len rest_xs _ Hrne HXmean) as Hrm.
    assert (len xs = (len rest_xs + 1)%Z) as Hlen
      by (rewrite (len_permutation _ _ Hp); unfold len; simpl length; lia).
    rewrite (sum_permutation _ _ Hp), sum_cons, Hrm, Hlen, plus_IZR in Hnm.
    rewrite Hlen, plus_IZR in Hn.
    pose proof (IZR_len_pos rest_xs Hrne) as Hk.
    destruct (rest_std_bound xs rest_xs _ _ _ _ Hp Hmean Hstd Hs)
      as (_ & _ & Hbound).
    rewrite Hlen, plus_IZR in Hbound.
    set (k := IZR (len rest_xs)) in *.
    set (D := Locals.Xmax fr - Locals.Xmean fr).
    assert (k * D = (k + 1) * d) as HD by (subst D d; nra).
    assert (k * Locals.S fr <= (k + 1) * Sb) as Hscale.
    { rewrite HSa. unfold max2. destruct (Rlt_dec s eps); nra. }
    (* d / Sb <= D / S, by cross-multiplication *)
    assert (0 < Locals.S fr) as HSpos by lra.
    assert (0 < Sb) as HSbpos by lra.
    apply (Rmult_le_reg_r (Sb * Locals.S fr * k)).
    { apply Rmult_lt_0_compat; [apply Rmult_lt_0_compat|]; assumption. }
    replace (d / Sb * (Sb * Locals.S fr * k)) with (d * (k * Locals.S fr))
      by (field; lra).
    replace (D / Locals.S fr * (Sb * Locals.S fr * k)) with (k * D * Sb)
      by (field; lra).
    rewrite HD. nra.
Qed.

Lemma leave_one_out_dominates_witness :
  exists fr h',
    calculate_pmp_with_eva_body 1%positive {[ 1%positive := [40; 55; 30] ]}
      = (Ok fr, h') /\
    Locals.frequency_factor_raw fr = Locals.km_a fr.
Proof.
  destruct (leave_one_out_dominates {[ 1%positive := [40; 55; 30] ]}
              1%positive [40; 55; 30]) as (fr & h' & Hrun & _ & Hraw).
  - apply lookup_singleton_eq.
  - discriminate.
  - by exists fr, h'.
Defined.

(** ** The hydrological report, continued *)

(** Every field of the report in terms of the estimator's locals. *)
Lemma report_fields (h : heap) (annual_data : list Summary.t) (climate_factor : R) :
  annual_data <> [] ->
  exists rep fr rest_xs h',
    calculate_hydrological_parameters annual_data climate_factor h = (Ok rep, h') /\
    body_post (Summary.amdp <$> annual_data) rest_xs fr /\
    (forall (l : loc) (ys : list R), h !! l = Some ys -> h' !! l = Some ys) /\
    rep = Report.mk (Locals.mean fr) (Locals.std fr)
            (Report.meanAnnualPrecip rep)
            (if Rgt_dec climate_factor 0
             then Locals.pmp fr * (1 + climate_factor) else Locals.pmp fr)
            (Locals.pmp fr) (Locals.frequency_factor fr) climate_factor
            (Report.trend rep)
            (if Req_dec_T (Locals.mean fr) 0 then 0
             else Locals.std fr / Locals.mean fr * 100)
            (len annual_data) (len annual_data)
            (Locals.confidence_interval fr) /\
    calculate_mean (Summary.totalPrecip <$> annual_data)
      = Ok (Report.meanAnnualPrecip rep) /\
    calculate_trend (Summary.amdp <$> annual_data) = Ok (Report.trend rep).
Proof.
  intros Hne. set (xs := Summary.amdp <$> annual_data).
  assert (xs <> []) as Hxs by (subst xs; by destruct annual_data).
  set (l0 := fresh (dom h)). set (h1 := <[l0 := xs]> h).
  assert (h1 !! l0 = Some xs) as Hl0 by apply lookup_insert_eq.
  destruct (eva_run h1 l0 xs Hl0 Hxs) as (fr & rest_xs & _ & Hrun & _ & Hpost).
  set (h2 := <[fresh (dom h1) := rest_xs]> h1) in *.
  assert (forall (l : loc) (ys : list R), h1 !! l = Some ys -> h2 !! l = Some ys)
    as Hframe2.
  { intros l ys Hl. subst h2. rewrite lookup_insert_ne; [assumption|].
    by apply (fresh_loc_ne h1 l ys). }
  assert (forall (l : loc) (ys : list R), h !! l = Some ys -> h1 !! l = Some ys)
    as Hframe1.
  { intros l ys Hl. subst h1. rewrite lookup_insert_ne; [assumption|].
    by apply (fresh_loc_ne h l ys). }
  destruct (calculate_mean_total (Summary.totalPrecip <$> annual_data))
    as [mean_annual_precip Hmap].
  destruct (calculate_trend_total xs) as [trend Htrend].
  set (variability := if Req_dec_T (Locals.mean fr) 0 then 0
                      else Locals.std fr / Locals.mean fr * 100).
  assert ((if Req_dec_T (Locals.mean fr) 0 then mret 0
           else q ← lift (truediv (Locals.std fr) (Locals.mean fr));
                mret (q * 100)) h2
          = (Ok variability, h2)) as Hvar.
  { subst variability. destruct (Req_dec_T (Locals.mean fr) 0); [reflexivity|].
    rewrite (bind_run _ _ h2 h2 (Locals.std fr / Locals.mean fr));
      [reflexivity|]. by rewrite lift_run, truediv_ok. }
  eexists _, fr, rest_xs, h2. split.
  - unfold calculate_hydrological_parameters. fold xs.
    rewrite (bind_run _ _ h h1 l0 (new_list_run xs h)).
    rewrite (bind_run _ _ h1 h1 (Locals.mean fr))
      by (by rewrite (call_run _ _ _ xs), (post_mean _ _ _ Hpost)).
    rewrite (bind_run _ _ h1 h1 (Locals.std fr))
      by (by rewrite (call_run _ _ _ xs), (post_std _ _ _ Hpost)).
    rewrite (bind_run _ _ h1 h1 mean_annual_precip)
      by (by rewrite lift_run, Hmap).
    rewrite (bind_run _ _ h1 h2 _ Hrun).
    rewrite (bind_run _ _ h2 h2 trend)
      by (by rewrite (call_run _ _ _ xs), Htrend by (by apply Hframe2)).
    rewrite (bind_run _ _ h2 h2 variability Hvar).
    reflexivity.
  - split; [assumption|]. split; [intros l ys Hl; by apply Hframe2, Hframe1|].
    simpl. by repeat (split; [done|]).
Qed.

(** The entries of the report, one by one. *)
Lemma report_entries (h : heap) (annual_data : list Summary.t) (climate_factor : R) :
  annual_data <> [] ->
  exists rep fr rest_xs h',
    calculate_hydrological_parameters annual_data climate_factor h = (Ok rep, h') /\
    body_post (Summary.amdp <$> annual_data) rest_xs fr /\
    Report.meanAMDP rep = Locals.mean fr /\
    Report.stdAMDP rep = Locals.std fr /\
    Report.pmp rep =
      (if Rgt_dec climate_factor 0
       then Locals.pmp fr * (1 + climate_factor) else Locals.pmp fr) /\
    Report.pmpUnadjusted rep = Locals.pmp fr /\
    Report.frequencyFactor rep = Locals.frequency_factor fr /\
    Report.climateAdjustment rep = climate_factor /\
    Report.variability rep =
      (if Req_dec_T (Locals.mean fr) 0 then 0
       else Locals.std fr / Locals.mean fr * 100) /\
    Report.dataPoints rep = len annual_data /\
    Report.yearsCovered rep = len annual_data /\
    Report.confidenceInterval rep = Locals.confidence_interval fr /\
    calculate_mean (Summary.totalPrecip <$> annual_data)
      = Ok (Report.meanAnnualPrecip rep) /\
    calculate_trend (Summary.amdp <$> annual_data) = Ok (Report.trend rep).
Proof.
  intros Hne.
  destruct (report_fields h annual_data climate_factor Hne)
    as (rep & fr & rest_xs & h' & Hrun & Hpost & _ & Hrep & Hmap & Htrend).
  exists rep, fr, rest_xs, h'. split; [assumption|]. split; [assumption|].
  repeat (split; [rewrite Hrep; reflexivity|]).
  split; assumption.
Qed.

(** X13: the climate factor moves only the entries ['pmp'] and
    ['climateAdjustment']: the reports computed from the same non-empty
    list of summaries with two climate factors agree on every other entry.
    In particular the confidence interval is that of the run with climate
    factor 0, whose ['pmp'] is [pmpUnadjusted]: it does not follow the
    adjusted [pmp].  (The runs are those of the exact model, in which the
    calculator returns on every non-empty list.) *)
Theorem climate_factor_moves_pmp_only
    (h : heap) (annual_data : list Summary.t) (cf1 cf2 : R) :
  annual_data <> [] ->
  exists rep1 rep2 rep0 h1 h2 h0,
    calculate_hydrological_parameters annual_data cf1 h = (Ok rep1, h1) /\
    calculate_hydrological_parameters annual_data cf2 h = (Ok rep2, h2) /\
    calculate_hydrological_parameters annual_data 0 h = (Ok rep0, h0) /\
    Report.climateAdjustment rep1 = cf1 /\
    Report.climateAdjustment rep2 = cf2 /\
    Report.meanAMDP rep1 = Report.meanAMDP rep2 /\
    Report.stdAMDP rep1 = Report.stdAMDP rep2 /\
    Report.meanAnnualPrecip rep1 = Report.meanAnnualPrecip rep2 /\
    Report.pmpUnadjusted rep1 = Report.pmpUnadjusted rep2 /\
    Report.frequencyFactor rep1 = Report.frequencyFactor rep2 /\
    Report.trend rep1 = Report.trend rep2 /\
    Report.variability rep1 = Report.variability rep2 /\
    Report.dataPoints rep1 = Report.dataPoints rep2 /\
    Report.yearsCovered rep1 = Report.yearsCovered rep2 /\
    Report.confidenceInterval rep1 = Report.confidenceInterval rep2 /\
    Report.pmp rep0 = Report.pmpUnadjusted rep1 /\
    Report.confidenceInterval rep1 = Report.confidenceInterval rep0.
Proof.
  intros Hne.
  destruct (report_entries h annual_data cf1 Hne)
    as (rep1 & fr1 & rx1 & h1 & Hr1 & Hp1 & Hmean1 & Hstd1 & Hpmp1 & Hun1
        & Hff1 & Hcf1 & Hvar1 & Hdp1 & Hyc1 & Hci1 & Hmap1 & Htr1).
  destruct (report_entries h annual_data cf2 Hne)
    as (rep2 & fr2 & rx2 & h2 & Hr2 & Hp2 & Hmean2 & Hstd2 & Hpmp2 & Hun2
        & Hff2 & Hcf2 & Hvar2 & Hdp2 & Hyc2 & Hci2 & Hmap2 & Htr2).
  destruct (report_entries h annual_data 0 Hne)
    as (rep0 & fr0 & rx0 & h0 & Hr0 & Hp0 & Hmean0 & Hstd0 & Hpmp0 & Hun0
        & Hff0 & Hcf0 & Hvar0 & Hdp0 & Hyc0 & Hci0 & Hmap0 & Htr0).
  exists rep1, rep2, rep0, h1, h2, h0.
  destruct (body_post_permutation _ _ _ _ _ _ (Permutation_refl _) Hp1 Hp2)
    as (Epmp & Eff & Eci).
  destruct (body_post_permutation _ _ _ _ _ _ (Permutation_refl _) Hp1 Hp0)
    as (Epmp0 & _ & Eci0).
  assert (Locals.mean fr1 = Locals.mean fr2) as Emean.
  { apply Ok_inj.
    rewrite <- (post_mean _ _ _ Hp1), <- (post_mean _ _ _ Hp2). reflexivity. }
  assert (Locals.std fr1 = Locals.std fr2) as Estd.
  { apply Ok_inj.
    rewrite <- (post_std _ _ _ Hp1), <- (post_std _ _ _ Hp2). reflexivity. }
  split; [assumption|]. split; [assumption|]. split; [assumption|].
  split; [assumption|]. split; [assumption|].
  split; [rewrite Hmean1, Hmean2; exact Emean|].
  split; [rewrite Hstd1, Hstd2; exact Estd|].
  split; [apply Ok_inj; rewrite <- Hmap1, <- Hmap2; reflexivity|].
  split; [rewrite Hun1, Hun2; exact Epmp|].
  split; [rewrite Hff1, Hff2; exact Eff|].
  split; [apply Ok_inj; rewrite <- Htr1, <- Htr2; reflexivity|].
  split; [rewrite Hvar1, Hvar2, Emean, Estd; reflexivity|].
  split; [rewrite Hdp1, Hdp2; reflexivity|].
  split; [rewrite Hyc1, Hyc2; reflexivity|].
  split; [rewrite Hci1, Hci2; exact Eci|].
  split.
  - rewrite Hpmp0, Hun1. destruct (Rgt_dec 0 0); [lra|]. symmetry. exact Epmp0.
  - rewrite Hci1, Hci0. exact Eci0.
Qed.

Lemma climate_factor_moves_pmp_only_witness :
  exists rep1 rep2 h1 h2,
    calculate_hydrological_parameters
      [Summary.mk 2020 40 900 None None None None 365;
       Summary.mk 2021 55 950 None None None None 365] 0.1
      {[ 7%positive := [1; 2] ]} = (Ok rep1, h1) /\
    calculate_hydrological_parameters
      [Summary.mk 2020 40 900 None None None None 365;
       Summary.mk 2021 55 950 None None None None 365] 0.3
      {[ 7%positive := [1; 2] ]} = (Ok rep2, h2) /\
    Report.confidenceInterval rep1 = Report.confidenceInterval rep2 /\
    Report.pmpUnadjusted rep1 = Report.pmpUnadjusted rep2.
Proof.
  destruct (climate_factor_moves_pmp_only {[ 7%positive := [1; 2] ]}
              [Summary.mk 2020 40 900 None None None None 365;
               Summary.mk 2021 55 950 None None None None 365] 0.1 0.3)
    as (rep1 & rep2 & _ & h1 & h2 & _ & Hr1 & Hr2 & _ & _ & _ & _ & _ & _ & Hun
        & _ & _ & _ & _ & _ & Hci & _); [discriminate|].
  by exists rep1, rep2, h1, h2.
Defined.

(** X14: in exact arithmetic, when no AMDP value is negative (as in every
    summary the aggregator returns),
    [0 <= meanAMDP <= pmpUnadjusted <= pmp]: the climate adjustment never
    lowers the estimate; and [variability] is not negative. *)
Theorem report_nonnegative
    (h : heap) (annual_data : list Summary.t) (climate_factor : R) :
  annual_data <> [] ->
  Forall (fun s => 0 <= Summary.amdp s) annual_data ->
  exists rep h',
    calculate_hydrological_parameters annual_data climate_factor h = (Ok rep, h') /\
    0 <= Report.meanAMDP rep <= Report.pmpUnadjusted rep /\
    Report.pmpUnadjusted rep <= Report.pmp rep /\
    0 <= Report.variability rep.
Proof.
  intros Hne Hall.
  destruct (report_fields h annual_data climate_factor Hne)
    as (rep & fr & rest_xs & h' & Hrun & Hpost & _ & Hrep & _ & _).
  exists rep, h'. split; [assumption|]. rewrite Hrep. simpl.
  pose proof (pmp_ge_mean _ _ _ Hpost) as Hge.
  pose proof (post_std_nonneg _ _ _ Hpost) as Hstd.
  assert (0 <= Locals.mean fr) as Hmean.
  { pose proof (post_mean _ _ _ Hpost) as Hm.
    assert (Summary.amdp <$> annual_data <> []) as Hxs by (by destruct annual_data).
    pose proof (mean_times_len _ _ Hxs Hm) as Hprod.
    pose proof (IZR_len_pos _ Hxs) as Hn.
    assert (0 <= sum (Summary.amdp <$> annual_data))
      by (by apply sum_nonneg, Forall_fmap).
    nra. }
  split; [lra|]. split.
  - destruct (Rgt_dec climate_factor 0); [nra | lra].
  - destruct (Req_dec_T (Locals.mean fr) 0); [lra|].
    apply Rmult_le_pos; [|lra]. apply Rmult_le_pos; [assumption|].
    left. apply Rinv_0_lt_compat. lra.
Qed.

Lemma report_nonnegative_witness :
  exists rep h',
    calculate_hydrological_parameters
      [Summary.mk 2020 40 900 None None None None 365;
       Summary.mk 2021 55 950 None None None None 365] 0.1
      {[ 7%positive := [1; 2] ]} = (Ok rep, h') /\
    0 <= Report.meanAMDP rep <= Report.pmpUnadjusted rep /\
    Report.pmpUnadjusted rep <= Report.pmp rep /\
    0 <= Report.variability rep.
Proof.
  apply report_nonnegative; [discriminate|].
  constructor; [simpl; lra|]. constructor; [simpl; lra | constructor].
Defined.

(** ** The analysis endpoint *)

Section AnalyzeProperties.

Variable requests_get : Z -> res Http.response.

Lemma collect_years_omap (years : list Z) :
  collect_years requests_get years = omap (year_data requests_get) years.
Proof.
  unfold collect_years.
  assert (forall acc : list Summary.t,
             foldl (fun annual_data year =>
                      match year_data requests_get year with
                      | Some summary => annual_data ++ [summary]
                      | None => annual_data
                      end) acc years
             = acc ++ omap (year_data requests_get) years) as Hgen.
  { induction years as [|y years IH]; intros acc; simpl.
    - by rewrite app_nil_r.
    - rewrite IH. destruct (year_data requests_get y); [|reflexivity].
      by rewrite <- app_assoc. }
  apply (Hgen []).
Qed.

(** A year contributes a summary only when the archive answered with status
    200 and a non-empty ['daily'] object from which the aggregator returned a
    summary; that summary carries the year. *)
Lemma year_data_some (year : Z) (s : Summary.t) :
  year_data requests_get year = Some s ->
  Summary.year s = year /\
  exists resp daily,
    requests_get year = Ok resp /\ Http.status_code resp = 200%Z /\
    Http.json resp = Ok (Some daily) /\ dom daily <> ∅ /\
    process_yearly_data daily year = Ok (Some s).
Proof.
  unfold year_data. intros Hs.
  destruct (requests_get year) as [resp|e]; [|discriminate].
  destruct (decide (Http.status_code resp = 200%Z)) as [Hstatus|]; [|discriminate].
  destruct (Http.json resp) as [[daily|]|e] eqn:Hjson; try discriminate.
  destruct (decide (dom daily = ∅)) as [|Hdom]; [discriminate|].
  destruct (process_yearly_data daily year) as [[summary|]|e] eqn:Hp;
    try discriminate.
  injection Hs as ->. split.
  - by destruct (process_yearly_data_some daily year s Hp) as (_ & ? & _).
  - by exists resp, daily.
Qed.

Lemma range_from_sorted (start stop : Z) :
  StronglySorted Z.lt (range_from start stop) /\
  Forall (fun y => (start <= y < stop)%Z) (range_from start stop).
Proof.
  unfold range_from.
  assert (forall (n k : nat),
             StronglySorted Z.lt ((fun j => start + Z.of_nat j)%Z <$> seq k n) /\
             Forall (fun y => (start + Z.of_nat k <= y < start + Z.of_nat (k + n))%Z)
                    ((fun j => start + Z.of_nat j)%Z <$> seq k n)) as Hgen.
  { induction n as [|n IH]; intros k; simpl; [split; constructor|].
    destruct (IH (Datatypes.S k)) as [Hs Hb]. split.
    - constructor; [assumption|].
      eapply Forall_impl; [exact Hb|]. simpl. intros y Hy. lia.
    - constructor; [lia|].
      eapply Forall_impl; [exact Hb|]. simpl. intros y Hy. lia. }
  destruct (Hgen (Z.to_nat (stop - start)) 0%nat) as [Hs Hb].
  split; [assumption|].
  eapply Forall_impl; [exact Hb|]. simpl. intros y Hy. lia.
Qed.

Lemma omap_years (years : list Z) :
  Forall (fun s => Summary.year s ∈ years) (omap (year_data requests_get) years).
Proof.
  induction years as [|y years IH]; [constructor|].
  cbn [omap list_omap].
  assert (Forall (fun s => Summary.year s ∈ y :: years)
                 (omap (year_data requests_get) years)) as IH'.
  { eapply Forall_impl; [exact IH|]. simpl. intros s Hs.
    by apply list_elem_of_further. }
  destruct (year_data requests_get y) as [s|] eqn:Hs; [|exact IH'].
  constructor; [|exact IH'].
  destruct (year_data_some y s Hs) as [-> _]. apply list_elem_of_here.
Qed.

Lemma omap_years_sorted (years : list Z) :
  StronglySorted Z.lt years ->
  StronglySorted Z.lt (Summary.year <$> omap (year_data requests_get) years).
Proof.
  induction 1 as [|y years Hsorted IH Hlt]; [constructor|].
  cbn [omap list_omap].
  destruct (year_data requests_get y) as [s|] eqn:Hs; [|exact IH].
  destruct (year_data_some y s Hs) as [Hy _].
  change (StronglySorted Z.lt
            (Summary.year s :: (Summary.year <$> omap (year_data requests_get) years))).
  constructor; [assumption|]. rewrite Hy.
  apply Forall_fmap. eapply Forall_impl; [apply omap_years|].
  simpl. intros t Ht. by apply (proj1 (Forall_forall _ _) Hlt).
Qed.

Lemma insert_by_year_front (d : Summary.t) (l : list Summary.t) :
  Forall (fun e => (Summary.year d < Summary.year e)%Z) l ->
  insert_by_year d l = d :: l.
Proof.
  destruct 1 as [|e l He _]; [reflexivity|]. simpl.
  destruct (Z.leb_spec (Summary.year d) (Summary.year e)); [reflexivity | lia].
Qed.

Lemma sorted_by_year_sorted (l : list Summary.t) :
  StronglySorted Z.lt (Summary.year <$> l) -> sorted_by_year l = l.
Proof.
  induction l as [|d l IH]; [reflexivity|].
  rewrite fmap_cons. intros Hs. apply StronglySorted_inv in Hs as [Hs Hlt].
  unfold sorted_by_year in *. simpl. rewrite (IH Hs).
  apply insert_by_year_front. rewrite Forall_fmap in Hlt. exact Hlt.
Qed.

Lemma omap_length_le {A B : Type} (f : A -> option B) (l : list A) :
  (length (omap f l) <= length l)%nat.
Proof.
  induction l as [|a l IH]; [reflexivity|].
  cbn [omap list_omap]. destruct (f a); simpl; fold (@omap list _ A B) in *; lia.
Qed.

Lemma annual_data_in_year_order_aux (start_year end_year : Z) :
  sorted_by_year
    (collect_years requests_get (range_from start_year (end_year + 1)))
  = omap (year_data requests_get) (range_from start_year (end_year + 1)).
Proof.
  rewrite collect_years_omap. apply sorted_by_year_sorted, omap_years_sorted.
  apply range_from_sorted.
Qed.

(** The converse of [year_data_some]. *)
Lemma year_data_intro
    (year : Z) (s : Summary.t) (resp : Http.response)
    (daily : gmap string (list (option R))) :
  requests_get year = Ok resp -> Http.status_code resp = 200%Z ->
  Http.json resp = Ok (Some daily) -> dom daily <> ∅ ->
  process_yearly_data daily year = Ok (Some s) ->
  year_data requests_get year = Some s.
Proof.
  intros Hget Hstatus Hjson Hdom Hp. unfold year_data.
  rewrite Hget. destruct (decide (Http.status_code resp = 200%Z)); [|done].
  rewrite Hjson. destruct (decide (dom daily = ∅)); [done|]. by rewrite Hp.
Qed.

(** X15: the ['annualData'] that [analyze] works with holds exactly the
    summaries [s] of the years of [startYear .. endYear] for which the
    archive answered with status 200 and a non-empty ['daily'] object that
    has a valid precipitation value, [s] being what the aggregator returns
    for that year.  The list is in strictly increasing order of [year] (the
    sort changes nothing); a year that fails (the request or the decoding
    raises, a status other than 200, no ['daily'] object, no valid
    precipitation) is left out and the other years are unaffected. *)
Theorem annual_data_in_year_order (start_year end_year : Z) :
  sorted_by_year
    (collect_years requests_get (range_from start_year (end_year + 1)))
  = omap (year_data requests_get) (range_from start_year (end_year + 1)) /\
  StronglySorted Z.lt
    (Summary.year <$>
       omap (year_data requests_get) (range_from start_year (end_year + 1))) /\
  (forall s : Summary.t,
      s ∈ omap (year_data requests_get) (range_from start_year (end_year + 1)) <->
      (start_year <= Summary.year s <= end_year)%Z /\
      exists resp daily,
        requests_get (Summary.year s) = Ok resp /\
        Http.status_code resp = 200%Z /\
        Http.json resp = Ok (Some daily) /\
        dom daily <> ∅ /\
        valid_nonneg (dict_get daily "precipitation_sum") <> [] /\
        process_yearly_data daily (Summary.year s) = Ok (Some s)) /\
  (forall year : Z,
      (start_year <= year <= end_year)%Z ->
      year_data requests_get year = None ->
      Forall (fun s => Summary.year s <> year)
        (omap (year_data requests_get) (range_from start_year (end_year + 1)))) /\
  (len (omap (year_data requests_get) (range_from start_year (end_year + 1)))
   <= Z.max 0 (end_year - start_year + 1))%Z.
Proof.
  destruct (range_from_sorted start_year (end_year + 1)) as [Hsorted Hbounds].
  set (years := range_from start_year (end_year + 1)) in *.
  pose proof (omap_years_sorted years Hsorted) as Hdata.
  assert (forall s : Summary.t,
             s ∈ omap (year_data requests_get) years <->
             (start_year <= Summary.year s <= end_year)%Z /\
             year_data requests_get (Summary.year s) = Some s) as Hmem.
  { intros s. rewrite list_elem_of_omap. split.
    - intros (y & Hy & Hs). destruct (year_data_some y s Hs) as [<- _].
      split; [|assumption].
      pose proof (proj1 (Forall_forall _ _) Hbounds _ Hy). simpl in *. lia.
    - intros [Hrange Hs]. exists (Summary.year s). split; [|assumption].
      subst years. unfold range_from. apply list_elem_of_fmap.
      exists (Z.to_nat (Summary.year s - start_year)). split; [lia|].
      apply elem_of_seq. lia. }
  split; [apply annual_data_in_year_order_aux|].
  split; [assumption|]. split; [|split].
  - intros s. rewrite Hmem. split.
    + intros [Hrange Hs]. split; [assumption|].
      destruct (year_data_some _ s Hs)
        as (_ & resp & daily & Hget & Hstatus & Hjson & Hdom & Hp).
      exists resp, daily. repeat (split; [assumption|]).
      split; [|assumption].
      by destruct (process_yearly_data_some daily _ s Hp) as (? & _).
    + intros (Hrange & resp & daily & Hget & Hstatus & Hjson & Hdom & _ & Hp).
      split; [assumption|]. by apply (year_data_intro _ _ resp daily).
  - intros year _ Hnone. apply Forall_forall. intros s Hs Hyear.
    apply Hmem in Hs as [_ Hs]. rewrite Hyear in Hs.
    rewrite Hnone in Hs. discriminate.
  - pose proof (omap_length_le (year_data requests_get) years) as Hle.
    unfold len. subst years. unfold range_from in Hle at 2.
    rewrite length_fmap, length_seq in Hle. lia.
Qed.


End AnalyzeProperties.

(** The summary of a year whose ['daily'] object has the precipitation
    series only. *)
Lemma precipitation_only_aggregated
    (series : list (option R)) (year : Z) (v : R) (vs : list R) (amdp : R) :
  valid_nonneg series = v :: vs -> max (v :: vs) = Ok amdp ->
  process_yearly_data {[ "precipitation_sum" := series ]} year
  = Ok (Some (Summary.mk year amdp (sum (v :: vs)) None None None None
                         (len (v :: vs)))).
Proof.
  intros Hvalid Hmax. unfold process_yearly_data, dict_get.
  rewrite lookup_singleton_eq.
  do 4 (rewrite lookup_singleton_ne by discriminate).
  cbn [default from_option Datatypes.id valid_present omap list_omap].
  rewrite Hvalid, Hmax. reflexivity.
Qed.

Lemma daily_2020_aggregated :
  process_yearly_data daily_2020 2020 = Ok (Some summary_2020).
Proof.
  unfold daily_2020.
  rewrite (precipitation_only_aggregated _ _ 12 [40; 3] 40).
  - unfold summary_2020. do 2 f_equal. f_equal.
    rewrite !sum_cons, sum_nil. lra.
  - unfold valid_nonneg. cbn [omap list_omap].
    destruct (Rge_dec 12 0); [|lra]. destruct (Rge_dec 40 0); [|lra].
    destruct (Rge_dec 3 0); [reflexivity | lra].
  - unfold max. cbn [foldl].
    assert (max2 12 40 = 40) as ->
      by (unfold max2; destruct (Rlt_dec 12 40); [reflexivity | lra]).
    assert (max2 40 3 = 40) as ->
      by (unfold max2; destruct (Rlt_dec 40 3); [lra | reflexivity]).
    reflexivity.
Qed.

Lemma daily_2024_aggregated :
  process_yearly_data daily_2024 2024 = Ok (Some summary_2024).
Proof.
  unfold daily_2024.
  rewrite (precipitation_only_aggregated _ _ 55 [0] 55).
  - unfold summary_2024. do 2 f_equal. f_equal.
    rewrite !sum_cons, sum_nil. lra.
  - unfold valid_nonneg. cbn [omap list_omap].
    destruct (Rge_dec 55 0); [|lra]. destruct (Rge_dec (-1) 0); [lra|].
    destruct (Rge_dec 0 0); [reflexivity | lra].
  - unfold max. cbn [foldl].
    assert (max2 55 0 = 55) as ->
      by (unfold max2; destruct (Rlt_dec 55 0); [lra | reflexivity]).
    reflexivity.
Qed.

Lemma negative_only_aggregated (year : Z) :
  process_yearly_data {[ "precipitation_sum" := [Some (-1)] ]} year = Ok None.
Proof.
  unfold process_yearly_data, dict_get. rewrite lookup_singleton_eq.
  cbn [default from_option Datatypes.id].
  rewrite valid_nonneg_all_invalid; [reflexivity|].
  constructor; [lra | constructor].
Qed.

(** The example archive over 2020 .. 2025: the years 2020 and 2024 give a
    summary; 2021 (a body that is not JSON), 2022 (status 500), 2023 (no
    ['daily'] object) and 2025 (negative precipitation only) give none. *)
Lemma example_archive_data :
  omap (year_data example_archive) (range_from 2020 (2025 + 1))
  = [summary_2020; summary_2024].
Proof.
  assert (year_data example_archive 2020 = Some summary_2020) as H2020.
  { unfold year_data, example_archive.
    rewrite decide_True by reflexivity. cbn [Http.status_code Http.json].
    rewrite decide_True by reflexivity.
    rewrite decide_False
      by (unfold daily_2020; rewrite dom_singleton_L; apply non_empty_singleton_L).
    by rewrite daily_2020_aggregated. }
  assert (year_data example_archive 2021 = None) as H2021 by reflexivity.
  assert (year_data example_archive 2022 = None) as H2022 by reflexivity.
  assert (year_data example_archive 2023 = None) as H2023 by reflexivity.
  assert (year_data example_archive 2024 = Some summary_2024) as H2024.
  { unfold year_data, example_archive.
    rewrite !decide_False by discriminate. rewrite decide_True by reflexivity.
    cbn [Http.status_code Http.json]. rewrite decide_True by reflexivity.
    rewrite decide_False
      by (unfold daily_2024; rewrite dom_singleton_L; apply non_empty_singleton_L).
    by rewrite daily_2024_aggregated. }
  assert (year_data example_archive 2025 = None) as H2025.
  { unfold year_data, example_archive.
    rewrite !decide_False by discriminate. rewrite decide_True by reflexivity.
    cbn [Http.status_code Http.json]. rewrite decide_True by reflexivity.
    rewrite decide_False
      by (rewrite dom_singleton_L; apply non_empty_singleton_L).
    by rewrite negative_only_aggregated. }
  change (range_from 2020 (2025 + 1))
    with [2020; 2021; 2022; 2023; 2024; 2025]%Z.
  cbn [omap list_omap].
  rewrite H2020, H2021, H2022, H2023, H2024, H2025. reflexivity.
Qed.

Lemma annual_data_in_year_order_witness :
  sorted_by_year (collect_years example_archive (range_from 2020 (2025 + 1)))
  = [summary_2020; summary_2024] /\
  Forall (fun s => Summary.year s <> 2022%Z) [summary_2020; summary_2024].
Proof.
  destruct (annual_data_in_year_order example_archive 2020 2025)
    as (Hsort & _ & _ & Hfail & _).
  rewrite example_archive_data in Hsort, Hfail.
  split; [exact Hsort|]. apply Hfail; [lia | reflexivity].
Defined.

